(** * AlphaTrader dashboard client ([frontend/app.js]): realtime synchronisation core

    A shallow embedding of the parts of [frontend/app.js] that keep the
    dashboard consistent with the server: the price cache, the projection of
    live prices onto the portfolio snapshot ([refreshPositionPrices]), the
    consumers of the cache ([updateTicker], [updateTradeCostPreview]), the
    authorised fetch wrapper ([authFetch], [handleLogout]), the WebSocket
    life cycle ([connectWebSocket] and its four handlers) and the 60 s
    reconciliation timer.

    Numbers are IEEE 754 binary64 values, as in JavaScript: the kernel's
    primitive [float] with its operations.  Objects used as dictionaries are
    finite maps over their own properties.

    Modelling boundaries, stated once:
    - symbols are instrument tickers, which the page upper-cases before it
      submits them; the members inherited from [Object.prototype] (a key
      such as "constructor") are not modelled, so [priceCache[k]] is the
      lookup of an own property;
    - the authoritative numeric fields of a position ([quantity], [avg_cost],
      the marks as the server sends them) are JSON numbers;
    - a cached value is a primitive or a flat record of primitives (the
      [{current, change_pct, ...}] objects of a [price_update] message);
    - rendering (DOM writes, toasts, charts) is left out except for the two
      indicators the core drives: the connection label and the login overlay. *)

From Stdlib Require Import Floats ZArith.
From stdpp Require Import gmap strings list fin_maps.

Set Default Proof Using "Type".

(** ** JavaScript values *)

Inductive prim : Type :=
  | PUndefined
  | PNull
  | PBool (b : bool)
  | PNum (x : float)
  | PStr (s : string).

Inductive jsval : Type :=
  | JPrim (p : prim)
  | JRecord (fields : gmap string prim).

Coercion JPrim : prim >-> jsval.

(** [ToBoolean]: what [if (v)], [!v], [a || b] test. *)
Definition ToBoolean_prim (p : prim) : bool :=
  match p with
  | PUndefined | PNull => false
  | PBool b => b
  | PNum x => negb (is_zero x || is_nan x)
  | PStr s => negb (String.eqb s "")
  end.

Definition ToBoolean (v : jsval) : bool :=
  match v with
  | JPrim p => ToBoolean_prim p
  | JRecord _ => true
  end.

(** [typeof v === 'object']: objects and, as the language has it, [null]. *)
Definition typeof_object (v : jsval) : bool :=
  match v with
  | JRecord _ | JPrim PNull => true
  | JPrim _ => false
  end.

(** [v[name]] for a property name that no primitive wrapper defines
    ([current], [change_pct]).  [None] is the TypeError of reading a property
    of [null] or [undefined]. *)
Definition member (v : jsval) (name : string) : option prim :=
  match v with
  | JRecord fields => Some (default PUndefined (fields !! name))
  | JPrim PNull | JPrim PUndefined => None
  | JPrim _ => Some PUndefined
  end.

(** [a || b] *)
Definition js_or (a b : prim) : prim := if ToBoolean_prim a then a else b.

(** ** The price cache

    [let priceCache = {}]: symbol ↦ latest value.  Two writers:
    [Object.assign(priceCache, msg.prices)] in [ws.onmessage] and
    [priceCache[idx.symbol] = idx.current] in [loadMarkets]. *)

Abbreviation cache := (gmap string jsval).

(** [priceCache[sym]] *)
Definition cache_get (c : cache) (sym : string) : jsval :=
  default (JPrim PUndefined) (c !! sym).

(** [Object.assign(target, source)]: every own property of [source] is
    assigned to [target]; a [source] that is [undefined] or [null] is
    skipped. *)
Definition Object_assign (target : cache) (source : option cache) : cache :=
  match source with
  | None => target
  | Some src => map_fold (λ k v acc, <[k:=v]> acc) target src
  end.

(** The cache after a sequence of [price_update] payloads, oldest first. *)
Definition merge_all (c : cache) (updates : list cache) : cache :=
  foldl (λ acc u, Object_assign acc (Some u)) c updates.

(** ** Portfolio snapshot *)

(** One entry of [portfolioData.positions], with the JSON keys of the
    server's reply.  [current_price] receives whatever price the projection
    extracts, which need not be a number. *)
Record position : Type := {
  symbol : string;
  quantity : float;
  avg_cost : float;
  current_price : prim;
  market_value : float;
  unrealized_pnl : float;
  unrealized_pnl_pct : float;
  weight_pct : float;
}.

(** [portfolioData]; the snapshot-level [unrealized_pnl] is
    [total_unrealized_pnl] here.  [positions] is [None] when the property is
    missing (as in the initial [{}]) or [null]. *)
Record portfolio : Type := {
  cash : prim;
  total_equity : prim;
  total_market_value : prim;
  total_unrealized_pnl : prim;
  total_return : prim;
  total_return_pct : prim;
  total_trades : prim;
  provider : prim;
  positions : option (list position);
}.

(** [let portfolioData = {}] *)
Definition empty_portfolio : portfolio :=
  {| cash := PUndefined; total_equity := PUndefined;
     total_market_value := PUndefined; total_unrealized_pnl := PUndefined;
     total_return := PUndefined; total_return_pct := PUndefined;
     total_trades := PUndefined; provider := PUndefined; positions := None |}.

(** The price every consumer reads off a cached value:
    [typeof v === 'object' ? v.current : v].  [None] is the TypeError of
    [null.current]; the last branch cannot be reached, a record being an
    object. *)
Definition quote_price (v : jsval) : option prim :=
  if typeof_object v then member v "current"
  else match v with JPrim p => Some p | JRecord _ => None end.

(** The concrete runs at the end hold no string where a number is expected,
    so the language's [StringToNumber] is never consulted there; they are
    evaluated with a conversion that answers NaN. *)
Definition no_string_prices : string → float := λ _, nan.

Section Client.

(** The language's [StringToNumber] (the numeric value of a string operand of
    [-], [*], [/]) is a built-in and is taken as given. *)
Variable StringToNumber : string → float.

Definition ToNumber (p : prim) : float :=
  match p with
  | PUndefined => nan
  | PNull => 0%float
  | PBool true => 1%float
  | PBool false => 0%float
  | PNum x => x
  | PStr s => StringToNumber s
  end.

(** ** Projection: [refreshPositionPrices] *)

(** The marks of [p] recomputed from [price]: the four assignments of the
    [forEach] body. *)
Definition mark_to (price : prim) (p : position) : position :=
  {| symbol := symbol p;
     quantity := quantity p;
     avg_cost := avg_cost p;
     current_price := price;
     unrealized_pnl := (ToNumber price - avg_cost p) * quantity p;
     unrealized_pnl_pct := (ToNumber price - avg_cost p) / avg_cost p * 100;
     market_value := ToNumber price * quantity p;
     weight_pct := weight_pct p |}%float.

(** The body of the [forEach]: [if (priceCache[p.symbol]) { ... }]. *)
Definition refresh_position (c : cache) (p : position) : position :=
  let v := cache_get c (symbol p) in
  if ToBoolean v then
    match quote_price v with
    | Some price => mark_to price p
    | None => p
    end
  else p.

(** [refreshPositionPrices()], on the two globals it reads:
    [if (!portfolioData?.positions) return; portfolioData.positions.forEach(...)]. *)
Definition refreshPositionPrices (c : cache) (d : portfolio) : portfolio :=
  match positions d with
  | None => d
  | Some ps =>
      {| cash := cash d; total_equity := total_equity d;
         total_market_value := total_market_value d;
         total_unrealized_pnl := total_unrealized_pnl d;
         total_return := total_return d; total_return_pct := total_return_pct d;
         total_trades := total_trades d; provider := provider d;
         positions := Some (refresh_position c <$> ps) |}
  end.

(** [portfolioData.positions[i]] *)
Definition position_at (d : portfolio) (i : nat) : option position :=
  ps ← positions d; ps !! i.

(** ** The other consumers of the cache *)

(** One ticker entry of [updateTicker], before formatting: the price and the
    change it displays.  [None]: the TypeError on a cached [null]. *)
Record ticker_item : Type := {
  ticker_sym : string;
  ticker_price : prim;
  ticker_chg : prim;
}.

Definition ticker_entry (sym : string) (p : jsval) : option ticker_item :=
  price ← quote_price p;
  chg ← (if typeof_object p then member p "change_pct" else Some (PNum 0));
  Some {| ticker_sym := sym; ticker_price := price; ticker_chg := chg |}.

(** [updateTicker()]: the items of one pass over [Object.keys(priceCache)]
    (in the map's enumeration order), or the exception. *)
Definition updateTicker (c : cache) : option (list ticker_item) :=
  mapM (λ kv, ticker_entry kv.1 kv.2) (map_to_list c).

(** [updateTradeCostPreview()], on the parsed form inputs: [qty] is
    [parseFloat(tradeQty) || 0], [priceInput] is [parseFloat(tradePrice)]
    (NaN when the field is empty).  Returns the reference price and the
    estimated cost; the preview is written when [cost > 0]. *)
Definition updateTradeCostPreview (c : cache) (sym : string) (qty priceInput : float)
    : prim * float :=
  let v := cache_get c sym in
  let livePrice := if ToBoolean v then default PUndefined (quote_price v) else PNull in
  let price := js_or (js_or (PNum priceInput) livePrice) (PNum 0) in
  (price, (qty * ToNumber price)%float).

(** ** The client: globals, sockets, timers, fetches in flight *)

(** [WebSocket.readyState] *)
Inductive ready_state : Type := CONNECTING | OPEN | CLOSING | CLOSED.

(** What a timer runs.  [setTimeout(connectWebSocket, 5000)] in
    [ws.onclose]; the [setInterval] of [ws.onopen] (the ping) and of the
    page-load handler (the reconciliation pull). *)
Inductive callback : Type := ConnectWebSocket | Heartbeat | Reconcile.

(** A pending timer: [period = None] for [setTimeout], [Some ms] for
    [setInterval]; [due] is the earliest instant it may run. *)
Record timer : Type := {
  due : Z;
  period : option Z;
  run : callback;
}.

(** The [options] argument of [fetch]; the body plays no role here. *)
Record options : Type := {
  method : option string;
  headers : gmap string string;
}.

Record request : Type := {
  url : string;
  opts : options;
}.

(** The [async] function suspended on a fetch. *)
Inductive awaiting : Type :=
  | AwAutoLogin                (* page load: [fetch('/api/auth/auto-login')] *)
  | AwLogin                    (* [handleLogin]: [fetch('/api/auth/login', ...)] *)
  | AwMe (page_load : bool)    (* [initApp]: [authFetch('/api/auth/me')] *)
  | AwPortfolio                (* [loadPortfolio] *)
  | AwMarkets                  (* [loadMarkets] *)
  | AwReset                    (* [resetPortfolio] *)
  | AwOther.                   (* any other [authFetch] caller of the page *)

(** A decoded response body ([await res.json()]); [BodyInvalid] when
    decoding throws, [BodyJson] for a JSON object with none of the properties
    its reader looks at. *)
Inductive body : Type :=
  | BodyInvalid
  | BodyJson
  | BodyToken (access_token : string)
  | BodyUser (username : string)
  | BodyPortfolio (d : portfolio)
  | BodyMarkets (first_region : list (string * jsval)).

(** How a fetch settles: the promise rejects, or resolves to a response. *)
Inductive outcome : Type :=
  | NetworkError
  | Response (status : Z) (b : body).

Inductive error : Type := SessionExpired | FetchFailed.

(** What [await authFetch(...)] gives its caller. *)
Inductive result : Type :=
  | Returned (status : Z) (b : body)
  | Thrown (e : error).

(** A decoded WebSocket frame ([JSON.parse(event.data)] and [msg.type]). *)
Inductive message : Type :=
  | Malformed
  | PriceUpdate (prices : option cache)
  | TradeExecuted
  | AutoTrade
  | Unrecognised.

Inductive label : Type := Connected | Disconnected.

Record client : Type := {
  authToken : string;
  currentUser : option string;
  storedToken : option string;        (* [localStorage['auth_token']] *)
  ws : option nat;                    (* the global [ws]: index into [sockets] *)
  sockets : list ready_state;         (* every [WebSocket] constructed so far *)
  priceCache : cache;
  portfolioData : portfolio;
  now : Z;                            (* ms *)
  timers : list timer;
  inflight : list (request * awaiting);
  sent : list nat;                    (* pings sent, by socket *)
  statusLabel : label;
  authOverlay : bool;
}.

Definition set_session (tok : string) (user : option string) (stored : option string)
    (st : client) : client :=
  {| authToken := tok; currentUser := user; storedToken := stored;
     ws := ws st; sockets := sockets st; priceCache := priceCache st;
     portfolioData := portfolioData st; now := now st; timers := timers st;
     inflight := inflight st; sent := sent st; statusLabel := statusLabel st;
     authOverlay := authOverlay st |}.

Definition set_sockets (w : option nat) (ss : list ready_state) (st : client) : client :=
  {| authToken := authToken st; currentUser := currentUser st;
     storedToken := storedToken st;
     ws := w; sockets := ss; priceCache := priceCache st;
     portfolioData := portfolioData st; now := now st; timers := timers st;
     inflight := inflight st; sent := sent st; statusLabel := statusLabel st;
     authOverlay := authOverlay st |}.

Definition set_data (c : cache) (d : portfolio) (st : client) : client :=
  {| authToken := authToken st; currentUser := currentUser st;
     storedToken := storedToken st;
     ws := ws st; sockets := sockets st; priceCache := c;
     portfolioData := d; now := now st; timers := timers st;
     inflight := inflight st; sent := sent st; statusLabel := statusLabel st;
     authOverlay := authOverlay st |}.

Definition set_clock (t : Z) (ts : list timer) (st : client) : client :=
  {| authToken := authToken st; currentUser := currentUser st;
     storedToken := storedToken st;
     ws := ws st; sockets := sockets st; priceCache := priceCache st;
     portfolioData := portfolioData st; now := t; timers := ts;
     inflight := inflight st; sent := sent st; statusLabel := statusLabel st;
     authOverlay := authOverlay st |}.

Definition set_inflight (fs : list (request * awaiting)) (st : client) : client :=
  {| authToken := authToken st; currentUser := currentUser st;
     storedToken := storedToken st;
     ws := ws st; sockets := sockets st; priceCache := priceCache st;
     portfolioData := portfolioData st; now := now st; timers := timers st;
     inflight := fs; sent := sent st; statusLabel := statusLabel st;
     authOverlay := authOverlay st |}.

Definition set_sent (ps : list nat) (st : client) : client :=
  {| authToken := authToken st; currentUser := currentUser st;
     storedToken := storedToken st;
     ws := ws st; sockets := sockets st; priceCache := priceCache st;
     portfolioData := portfolioData st; now := now st; timers := timers st;
     inflight := inflight st; sent := ps; statusLabel := statusLabel st;
     authOverlay := authOverlay st |}.

Definition set_display (l : label) (overlay : bool) (st : client) : client :=
  {| authToken := authToken st; currentUser := currentUser st;
     storedToken := storedToken st;
     ws := ws st; sockets := sockets st; priceCache := priceCache st;
     portfolioData := portfolioData st; now := now st; timers := timers st;
     inflight := inflight st; sent := sent st; statusLabel := l;
     authOverlay := overlay |}.

(** A non-empty string is truthy: [if (authToken)]. *)
Definition truthy (s : string) : bool := negb (String.eqb s "").

(** The script's top level on a fresh page:
    [authToken = localStorage.getItem('auth_token') || ''], [ws = null],
    [priceCache = {}], [portfolioData = {}]. *)
Definition fresh (stored : option string) (t0 : Z) : client :=
  {| authToken := default "" stored; currentUser := None; storedToken := stored;
     ws := None; sockets := []; priceCache := ∅; portfolioData := empty_portfolio;
     now := t0; timers := []; inflight := []; sent := [];
     statusLabel := Disconnected; authOverlay := false |}.

(** ** [authFetch] *)

(** The request [authFetch(url, options)] hands to [fetch]: the
    [Authorization] header when a token is held, and a JSON content type on
    non-GET calls that set none. *)
Definition authFetch_options (tok : string) (o : options) : options :=
  let h := if truthy tok
           then <["Authorization" := "Bearer " +:+ tok]> (headers o)
           else headers o in
  let h := if truthy (default "" (method o))
              && negb (String.eqb (default "" (method o)) "GET")
              && negb (truthy (default "" (h !! "Content-Type")))
           then <["Content-Type" := "application/json"]> h
           else h in
  {| method := method o; headers := h |}.

(** The call up to its [await]: the request joins the fetches in flight. *)
Definition authFetch (u : string) (o : options) (k : awaiting) (st : client) : client :=
  set_inflight
    (inflight st ++ [({| url := u; opts := authFetch_options (authToken st) o |}, k)]) st.

(** A plain [fetch(url, options)], as the login calls make. *)
Definition plainFetch (u : string) (o : options) (k : awaiting) (st : client) : client :=
  set_inflight (inflight st ++ [({| url := u; opts := o |}, k)]) st.

Definition no_options : options := {| method := None; headers := ∅ |}.

(** [WebSocket.close()]: a socket that is connecting or open starts closing. *)
Definition close_socket (i : nat) (ss : list ready_state) : list ready_state :=
  match ss !! i with
  | Some CONNECTING | Some OPEN => <[i := CLOSING]> ss
  | _ => ss
  end.

(** [if (ws) ws.close()] and, in [ws.onerror], [ws.close()]. *)
Definition close_ws (st : client) : client :=
  match ws st with
  | Some i => set_sockets (ws st) (close_socket i (sockets st)) st
  | None => st
  end.

(** [handleLogout()] *)
Definition handleLogout (st : client) : client :=
  close_ws (set_display (statusLabel st) true (set_session "" None None st)).

(** [authFetch] after its [await]: a 401 logs out and throws, any other
    response is returned, a rejected fetch is rethrown. *)
Definition authFetch_settle (r : outcome) (st : client) : client * result :=
  match r with
  | NetworkError => (st, Thrown FetchFailed)
  | Response status b =>
      if (status =? 401)%Z then (handleLogout st, Thrown SessionExpired)
      else (st, Returned status b)
  end.

(** [res.ok] *)
Definition ok (status : Z) : bool := ((200 <=? status) && (status <=? 299))%Z.

(** ** Pulls *)

(** [loadPortfolio()] up to its [await]. *)
Definition loadPortfolio (st : client) : client :=
  authFetch "/api/portfolio" no_options AwPortfolio st.

(** [loadMarkets()] up to its [await]. *)
Definition loadMarkets (st : client) : client :=
  authFetch "/api/markets" no_options AwMarkets st.

(** [portfolioData = await res.json()]: the reply replaces the snapshot
    whole, whatever its status. *)
Definition decode_portfolio (b : body) : option portfolio :=
  match b with
  | BodyInvalid => None
  | BodyPortfolio d => Some d
  | _ => Some empty_portfolio
  end.

(** [firstRegion.forEach(idx => { if (idx.symbol) priceCache[idx.symbol] = idx.current; })] *)
Definition seed_cache (first_region : list (string * jsval)) (c : cache) : cache :=
  foldl (λ acc idx, if truthy idx.1 then <[idx.1 := idx.2]> acc else acc) c first_region.

(** ** The WebSocket *)

(** [connectWebSocket()]: a new socket, connecting, becomes the global [ws]. *)
Definition connectWebSocket (st : client) : client :=
  set_sockets (Some (length (sockets st))) (sockets st ++ [CONNECTING]) st.

(** [setTimeout(f, ms)] and [setInterval(f, ms)] *)
Definition setTimeout (f : callback) (ms : Z) (st : client) : client :=
  set_clock (now st)
    (timers st ++ [{| due := now st + ms; period := None; run := f |}]) st.

Definition setInterval (f : callback) (ms : Z) (st : client) : client :=
  set_clock (now st)
    (timers st ++ [{| due := now st + ms; period := Some ms; run := f |}]) st.

(** [ws.onopen] *)
Definition onopen (st : client) : client :=
  setInterval Heartbeat 30000 (set_display Connected (authOverlay st) st).

(** [ws.onclose] *)
Definition onclose (st : client) : client :=
  setTimeout ConnectWebSocket 5000 (set_display Disconnected (authOverlay st) st).

(** [ws.onerror = () => ws.close()]: closes the socket the global holds. *)
Definition onerror (st : client) : client := close_ws st.

(** [ws.onmessage] *)
Definition onmessage (m : message) (st : client) : client :=
  match m with
  | PriceUpdate prices =>
      let c := Object_assign (priceCache st) prices in
      match updateTicker c with
      | Some _ => set_data c (refreshPositionPrices c (portfolioData st)) st
      | None => set_data c (portfolioData st) st
      end
  | TradeExecuted | AutoTrade => loadPortfolio st
  | Malformed | Unrecognised => st
  end.

(** The ping of [ws.onopen]'s interval:
    [ws.readyState === WebSocket.OPEN && ws.send(...)]. *)
Definition heartbeat (st : client) : client :=
  match ws st with
  | Some i =>
      match sockets st !! i with
      | Some OPEN => set_sent (sent st ++ [i]) st
      | _ => st
      end
  | None => st
  end.

(** The 60 s interval of the page-load handler:
    [if (authToken) { loadPortfolio(); updateSidebarEquity(); }]. *)
Definition reconcile (st : client) : client :=
  if truthy (authToken st) then loadPortfolio st else st.

Definition fire (f : callback) (st : client) : client :=
  match f with
  | ConnectWebSocket => connectWebSocket st
  | Heartbeat => heartbeat st
  | Reconcile => reconcile st
  end.

(** ** Session *)

(** [initApp()] up to its [await]. *)
Definition initApp (page_load : bool) (st : client) : client :=
  authFetch "/api/auth/me" no_options (AwMe page_load) st.

(** [authToken = data.access_token; localStorage.setItem('auth_token', authToken)].
    A reply without the property leaves [authToken] undefined, which every
    reader treats as the empty string, and stores the text "undefined". *)
Definition grant (b : body) (st : client) : option client :=
  match b with
  | BodyInvalid => None
  | BodyToken t => Some (set_session t (currentUser st) (Some t) st)
  | _ => Some (set_session "" (currentUser st) (Some "undefined") st)
  end.

(** The [try] block of [initApp] after a good reply. *)
Definition initApp_ready (u : string) (st : client) : client :=
  let st := set_session (authToken st) (Some u) (storedToken st) st in
  let st := set_display (statusLabel st) false st in
  let st := connectWebSocket st in
  let st := loadMarkets st in
  let st := loadPortfolio st in
  let st := authFetch "/api/settings" no_options AwOther st in
  let st := authFetch "/api/signals?limit=20" no_options AwOther st in
  authFetch "/api/watchlist" no_options AwOther st.

(** The tail of the page-load handler: the reconciliation interval. *)
Definition start_reconciliation (st : client) : client := setInterval Reconcile 60000 st.

(** The page-load handler from [if (authToken)] on. *)
Definition after_auto_login (st : client) : client :=
  if truthy (authToken st) then initApp true st
  else start_reconciliation (set_display (statusLabel st) true st).

(** The [DOMContentLoaded] handler up to its first [await]. *)
Definition DOMContentLoaded (st : client) : client :=
  if truthy (authToken st) then after_auto_login st
  else plainFetch "/api/auth/auto-login" no_options AwAutoLogin st.

(** [handleLogin()] up to its [await], on the trimmed form fields. *)
Definition handleLogin (username password : string) (st : client) : client :=
  if truthy username && truthy password then
    plainFetch "/api/auth/login"
      {| method := Some "POST";
         headers := {["Content-Type" := "application/json"]} |} AwLogin st
  else st.

(** ** Resuming after a fetch settles *)

Definition resume (k : awaiting) (r : outcome) (st : client) : client :=
  match k with
  | AwAutoLogin =>
      (* [try { if (res.ok) { ... } } catch (e) { }], then [if (authToken) ...] *)
      let st :=
        match r with
        | Response status b => if ok status then default st (grant b st) else st
        | NetworkError => st
        end in
      after_auto_login st
  | AwLogin =>
      match r with
      | Response status b =>
          if ok status then
            match grant b st with
            | Some st => initApp false st
            | None => st
            end
          else st
      | NetworkError => st
      end
  | AwMe page_load =>
      let '(st, res) := authFetch_settle r st in
      let st :=
        match res with
        | Returned status (BodyUser u) =>
            if ok status && truthy u then initApp_ready u st else handleLogout st
        | Returned _ _ | Thrown _ => handleLogout st
        end in
      if page_load then start_reconciliation st else st
  | AwPortfolio =>
      let '(st, res) := authFetch_settle r st in
      match res with
      | Returned _ b =>
          match decode_portfolio b with
          | Some d => set_data (priceCache st) d st
          | None => st
          end
      | Thrown _ => st
      end
  | AwMarkets =>
      let '(st, res) := authFetch_settle r st in
      match res with
      | Returned _ (BodyMarkets first_region) =>
          set_data (seed_cache first_region (priceCache st)) (portfolioData st) st
      | Returned _ _ | Thrown _ => st
      end
  | AwReset =>
      let '(st, res) := authFetch_settle r st in
      match res with
      | Returned _ _ => loadPortfolio (set_data (priceCache st) empty_portfolio st)
      | Thrown _ => st
      end
  | AwOther => (authFetch_settle r st).1
  end.

(** ** Events *)

Inductive event : Type :=
  | Advance (dt : Z)                       (* time passes *)
  | Fire (k : nat)                         (* the [k]-th pending timer runs *)
  | SocketOpen (i : nat)                   (* handshake done: [onopen] *)
  | SocketMessage (i : nat) (m : message)  (* [onmessage] *)
  | SocketError (i : nat)                  (* [onerror] *)
  | SocketClose (i : nat)                  (* the socket is closed: [onclose] *)
  | Settle (k : nat) (r : outcome)         (* the [k]-th fetch in flight settles *)
  | LoginClick (username password : string)
  | LogoutClick
  | ShowPortfolio                          (* a page action calling [loadPortfolio()] *)
  | ResetClick                             (* [resetPortfolio()] *)
  | Call (u : string) (o : options).       (* any other [authFetch(u, o)] of the page *)

(** One turn of the event loop; [None] when the event cannot happen in [st]
    (a timer not yet due, a closed socket, no such fetch). *)
Definition step (st : client) (e : event) : option client :=
  match e with
  | Advance dt =>
      if (0 <=? dt)%Z then Some (set_clock (now st + dt) (timers st) st) else None
  | Fire k =>
      t ← timers st !! k;
      if (due t <=? now st)%Z then
        let ts := match period t with
                  | None => delete k (timers st)
                  | Some ms => <[k := {| due := now st + ms; period := Some ms; run := run t |}]>
                                 (timers st)
                  end in
        Some (fire (run t) (set_clock (now st) ts st))
      else None
  | SocketOpen i =>
      match sockets st !! i with
      | Some CONNECTING => Some (onopen (set_sockets (ws st) (<[i := OPEN]> (sockets st)) st))
      | _ => None
      end
  | SocketMessage i m =>
      match sockets st !! i with
      | Some OPEN => Some (onmessage m st)
      | _ => None
      end
  | SocketError i =>
      match sockets st !! i with
      | Some CLOSED | None => None
      | Some _ => Some (onerror st)
      end
  | SocketClose i =>
      match sockets st !! i with
      | Some CLOSED | None => None
      | Some _ => Some (onclose (set_sockets (ws st) (<[i := CLOSED]> (sockets st)) st))
      end
  | Settle k r =>
      f ← inflight st !! k;
      Some (resume f.2 r (set_inflight (delete k (inflight st)) st))
  | LoginClick username password => Some (handleLogin username password st)
  | LogoutClick => Some (handleLogout st)
  | ShowPortfolio => Some (loadPortfolio st)
  | ResetClick =>
      Some (authFetch "/api/reset-portfolio" {| method := Some "POST"; headers := ∅ |} AwReset st)
  | Call u o => Some (authFetch u o AwOther st)
  end.

(** A run of the event loop. *)
Fixpoint steps (st : client) (es : list event) : option client :=
  match es with
  | [] => Some st
  | e :: es => st' ← step st e; steps st' es
  end.



(** The fetches in flight that are snapshot pulls. *)
Definition is_pull (f : request * awaiting) : bool :=
  match f.2 with AwPortfolio => true | _ => false end.

Definition pulls_in_flight (st : client) : nat :=
  length (List.filter is_pull (inflight st)).

(** ** Scenarios *)

(** AAPL, 10 shares, marked by the server at 155. *)
Definition aapl (avg pct : float) : position :=
  {| symbol := "AAPL"; quantity := 10; avg_cost := avg;
     current_price := PNum 155; market_value := 1550;
     unrealized_pnl := (1550 - avg * 10)%float; unrealized_pnl_pct := pct;
     weight_pct := 100 |}.

(** The same holding bought at 150: up 3.33 percent. *)
Definition aapl_at_150 : position := aapl 150 0x1.aaaaaaaaaaaabp+1%float.

Definition snapshot (ps : list position) : portfolio :=
  {| cash := PNum 1000; total_equity := PNum 2550; total_market_value := PNum 1550;
     total_unrealized_pnl := PNum 50; total_return := PNum 50;
     total_return_pct := PNum 2; total_trades := PNum 1; provider := PStr "Local";
     positions := Some ps |}.

Definition bare_quote (x : float) : cache := {["AAPL" := JPrim (PNum x)]}.

Definition record_quote (x : float) : cache :=
  {["AAPL" := JRecord {["current" := PNum x; "change_pct" := PNum 0]}]}.

(** A page load with a stored token, the reply to [/api/auth/me], and the
    socket's handshake: a signed-in client with the feed open. *)
Definition signed_in : list event :=
  [Settle 0 (Response 200 (BodyUser "alice")); SocketOpen 0].

Definition loaded_page : client := DOMContentLoaded (fresh (Some "tok") 0).

(** The signed-in client, feed open. *)
Definition feed_open : client :=
  default loaded_page (steps loaded_page signed_in).



(** The run of the reconnect after a logout: two sockets were constructed
    and the page holds the second. *)
Definition reconnected : list event :=
  signed_in ++ [LogoutClick; SocketClose 0; Advance 5000; Fire 2; SocketOpen 1].

(** The replies to the five calls [initApp] starts. *)
Definition first_replies : list event :=
  [Settle 0 (Response 200 BodyJson);
   Settle 0 (Response 200 (BodyPortfolio (snapshot [aapl_at_150])));
   Settle 0 (Response 200 BodyJson);
   Settle 0 (Response 200 BodyJson);
   Settle 0 (Response 200 BodyJson)].

(** ** Orders and transfers *)

(** The body [submitTrade] posts to [/api/trade], before serialisation. *)
Record order : Type := {
  order_symbol : string;
  order_side : string;
  order_quantity : float;
  order_price : prim;
}.

(** [submitTrade(side)] up to its request, on the trimmed, upper-cased
    symbol and the two parsed number fields:
    [priceInput = parseFloat(tradePrice) || undefined],
    [if (!symbol || !qty) return], [price: priceInput || null]. *)
Definition trade_order (sym side : string) (qty price : float) : option order :=
  let priceInput := js_or (PNum price) PUndefined in
  if truthy sym && ToBoolean_prim (PNum qty) then
    Some {| order_symbol := sym; order_side := side; order_quantity := qty;
            order_price := js_or priceInput PNull |}
  else None.

Definition post : options := {| method := Some "POST"; headers := ∅ |}.

Definition submitTrade (sym side : string) (qty price : float) (st : client) : client :=
  match trade_order sym side qty price with
  | Some _ => authFetch "/api/trade" post AwOther st
  | None => st
  end.

(** [submitTrade] after its [await]: a refused order is only reported; an
    accepted one calls [loadPortfolio()] and [loadTrades()]. *)
Definition submitTrade_resume (r : outcome) (st : client) : client :=
  let '(st, res) := authFetch_settle r st in
  match res with
  | Returned status _ =>
      if ok status
      then authFetch "/api/trades?limit=100" no_options AwOther (loadPortfolio st)
      else st
  | Thrown _ => st
  end.

(** The guard of [handleTransfer] and [handleQuickRecharge]:
    [if (isNaN(amount) || amount <= 0) return]. *)
Definition transfer_refused (amount : float) : bool :=
  is_nan amount || (amount <=? 0)%float.

(** [handleTransfer(type)] and [handleQuickRecharge()] up to their request,
    on the parsed amount. *)
Definition handleTransfer (amount : float) (st : client) : client :=
  if transfer_refused amount then st
  else authFetch "/api/transfer" post AwOther st.

(** After the [await]: [currentUser.balance = data.balance] throws when no
    user is signed in, and then [loadPortfolio()] is not reached. *)
Definition handleTransfer_resume (r : outcome) (st : client) : client :=
  let '(st, res) := authFetch_settle r st in
  match res with
  | Returned status b =>
      if ok status then
        match b, currentUser st with
        | BodyInvalid, _ | _, None => st
        | _, Some _ => loadPortfolio st
        end
      else st
  | Thrown _ => st
  end.

(** ** Counting timers, fetches and events *)

Definition is_heartbeat (t : timer) : bool :=
  match run t with Heartbeat => true | _ => false end.

Definition is_reconcile (t : timer) : bool :=
  match run t with Reconcile => true | _ => false end.

(** A fetch of the page-load handler: it is followed by the registration of
    the reconciliation interval. *)
Definition is_boot (f : request * awaiting) : bool :=
  match f.2 with AwAutoLogin | AwMe true => true | _ => false end.

Definition is_handshake (e : event) : bool :=
  match e with SocketOpen _ => true | _ => false end.

Definition count {A : Type} (P : A → bool) (l : list A) : nat :=
  length (List.filter P l).

(** The three kinds of timer of the page: the reconnect is the only
    one-shot timer, the ping repeats every 30 s, the reconciliation every
    60 s. *)
Definition timer_wf (t : timer) : Prop :=
  period t = match run t with
             | ConnectWebSocket => None
             | Heartbeat => Some 30000%Z
             | Reconcile => Some 60000%Z
             end.

Definition timers_wf (st : client) : Prop := Forall timer_wf (timers st).

(** The global [ws] holds the socket constructed last. *)
Definition ws_latest (st : client) : Prop :=
  ws st = match length (sockets st) with 0 => None | S n => Some n end.

(** A credential held in memory is the one in [localStorage]. *)
Definition session_persisted (st : client) : Prop :=
  authToken st = "" ∨ storedToken st = Some (authToken st).

(** * Properties *)

(** ** The price cache *)

Lemma Object_assign_union (target src : cache) :
  Object_assign target (Some src) = src ∪ target.
Proof.
  unfold Object_assign.
  apply (map_fold_weak_ind (λ r m, r = m ∪ target)).
  - by rewrite (left_id_L ∅ (∪)).
  - intros k v m r _ ->. by rewrite insert_union_l.
Qed.

Lemma Object_assign_lookup (target src : cache) (k : string) :
  Object_assign target (Some src) !! k =
    match src !! k with Some v => Some v | None => target !! k end.
Proof.
  rewrite Object_assign_union, lookup_union.
  destruct (src !! k), (target !! k); reflexivity.
Qed.

Lemma merge_all_cons (c u : cache) (us : list cache) :
  merge_all c (u :: us) = merge_all (Object_assign c (Some u)) us.
Proof. reflexivity. Qed.

Lemma merge_all_app (c : cache) (us vs : list cache) :
  merge_all c (us ++ vs) = merge_all (merge_all c us) vs.
Proof. unfold merge_all. apply foldl_app. Qed.

Lemma merge_all_untouched (c : cache) (us : list cache) (k : string) :
  Forall (λ u : cache, u !! k = None) us → merge_all c us !! k = c !! k.
Proof.
  intros H. revert c. induction H as [|u us Hu _ IH]; intros c; [done|].
  rewrite merge_all_cons, IH, Object_assign_lookup. by rewrite Hu.
Qed.

(** C5. Last write wins, per symbol: after any sequence of merges into an
    empty cache, the entry of [sym] is the value carried by the last
    update that mentions [sym]; it is absent ([priceCache[sym]] is
    [undefined]) when no update mentions it; and one merge leaves the
    symbols it does not mention as they were.  A merge is what the
    [price_update] handler does to the cache. *)
Theorem priceCache_last_write_wins (updates : list cache) (sym : string) :
  (∀ before u after v,
      updates = before ++ u :: after →
      u !! sym = Some v →
      Forall (λ w : cache, w !! sym = None) after →
      merge_all ∅ updates !! sym = Some v ∧ cache_get (merge_all ∅ updates) sym = v)
  ∧ (Forall (λ u : cache, u !! sym = None) updates →
      merge_all ∅ updates !! sym = None
      ∧ cache_get (merge_all ∅ updates) sym = JPrim PUndefined)
  ∧ (∀ (c u : cache), u !! sym = None →
      Object_assign c (Some u) !! sym = c !! sym)
  ∧ (∀ (st : client) (u : cache),
      priceCache (onmessage (PriceUpdate (Some u)) st)
        = Object_assign (priceCache st) (Some u)).
Proof.
  split; [|split; [|split]].
  - intros before u after v -> Hu Hafter.
    assert (merge_all ∅ (before ++ u :: after) !! sym = Some v) as E.
    { rewrite merge_all_app, merge_all_cons, merge_all_untouched by done.
      by rewrite Object_assign_lookup, Hu. }
    split; [done|]. unfold cache_get. by rewrite E.
  - intros H.
    assert (merge_all ∅ updates !! sym = None) as E
      by (by rewrite merge_all_untouched, lookup_empty).
    split; [done|]. unfold cache_get. by rewrite E.
  - intros c u Hu. by rewrite Object_assign_lookup, Hu.
  - intros st u. unfold onmessage. by destruct (updateTicker _).
Qed.

(** ** Truthiness and price extraction *)

(** A truthy value is not [null]: behind the guard [if (priceCache[...])]
    the price extraction never throws. *)
Lemma truthy_not_null (v : jsval) : ToBoolean v = true → is_Some (quote_price v).
Proof. destruct v as [[]|]; simpl; try discriminate; eauto. Qed.

(** ** IEEE facts used below *)

Lemma is_zero_spec (a : float) : is_zero a = true → ∃ s, Prim2SF a = S754_zero s.
Proof.
  unfold is_zero. rewrite FloatAxioms.eqb_spec.
  change (Prim2SF zero) with (S754_zero false).
  destruct (Prim2SF a) as [s|s| |s m e]; simpl; try discriminate; eauto.
  all: destruct s; discriminate.
Qed.

Lemma not_finite_spec (x : float) :
  Prim2SF x = S754_nan ∨ (∃ s, Prim2SF x = S754_infinity s) → is_finite x = false.
Proof.
  unfold is_finite, is_nan, is_infinity.
  rewrite !FloatAxioms.eqb_spec, abs_spec.
  change (Prim2SF infinity) with (S754_infinity false).
  intros [-> | [s ->]]; [reflexivity|]. destruct s; reflexivity.
Qed.

Lemma not_finite_not_zero (x : float) : is_finite x = false → is_zero x = false.
Proof.
  unfold is_finite, is_nan, is_infinity, is_zero.
  rewrite !FloatAxioms.eqb_spec, abs_spec.
  change (Prim2SF infinity) with (S754_infinity false).
  change (Prim2SF zero) with (S754_zero false).
  destruct (Prim2SF x) as [s|s| |s m e]; simpl; try done.
  all: destruct s; done.
Qed.

(** Whatever the numerator, [y / a * 100] with [a] a zero is NaN or an
    infinity. *)
Lemma div_zero_times_100 (y a : float) :
  is_zero a = true → is_finite (y / a * 100) = false.
Proof.
  intros [s Ha]%is_zero_spec. apply not_finite_spec.
  rewrite mul_spec, div_spec, Ha.
  change (Prim2SF 100) with (S754_finite false 7036874417766400 (-46)).
  destruct (Prim2SF y) as [sy|sy| |sy my ey]; simpl; eauto.
Qed.

(** ** Projection *)

Lemma refresh_position_hit (c : cache) (p : position) (v : jsval) (price : prim) :
  c !! symbol p = Some v → ToBoolean v = true → quote_price v = Some price →
  refresh_position c p = mark_to price p.
Proof.
  intros Hv Ht Hp. unfold refresh_position, cache_get. rewrite Hv. simpl.
  by rewrite Ht, Hp.
Qed.

Lemma refresh_position_miss (c : cache) (p : position) :
  ToBoolean (cache_get c (symbol p)) = false → refresh_position c p = p.
Proof. intros H. unfold refresh_position. by rewrite H. Qed.

Lemma refresh_position_cases (c : cache) (p : position) :
  refresh_position c p = p ∨ ∃ price, refresh_position c p = mark_to price p.
Proof.
  unfold refresh_position. destruct (ToBoolean _); [|by left].
  destruct (quote_price _); eauto.
Qed.

Lemma refresh_position_idem (c : cache) (p : position) :
  refresh_position c (refresh_position c p) = refresh_position c p.
Proof.
  unfold refresh_position at 2 3.
  destruct (ToBoolean (cache_get c (symbol p))) eqn:Ht.
  - destruct (quote_price (cache_get c (symbol p))) as [price|] eqn:Hp.
    + unfold refresh_position. simpl. by rewrite Ht, Hp.
    + unfold refresh_position. by rewrite Ht, Hp.
  - unfold refresh_position. by rewrite Ht.
Qed.

Lemma refreshPositionPrices_ext (c1 c2 : cache) (d : portfolio) :
  (∀ p, refresh_position c1 p = refresh_position c2 p) →
  refreshPositionPrices c1 d = refreshPositionPrices c2 d.
Proof.
  intros H. unfold refreshPositionPrices. destruct (positions d) as [ps|]; [|done].
  do 2 f_equal. apply list_fmap_ext. auto.
Qed.

Lemma position_at_refresh (c : cache) (d : portfolio) (i : nat) :
  position_at (refreshPositionPrices c d) i = refresh_position c <$> position_at d i.
Proof.
  unfold position_at, refreshPositionPrices.
  destruct (positions d) as [ps|] eqn:E; simpl; [|by rewrite E].
  apply list_lookup_fmap.
Qed.

(** C1 (as the code has it). A position with a truthy cache entry and an
    average cost of zero gets its percentage from the unguarded division
    [(price - avg_cost) / avg_cost * 100]: the result is NaN or an infinity,
    never a finite number and in particular never [0]. *)
Theorem refreshPositionPrices_zero_avg_cost
    (c : cache) (d : portfolio) (i : nat) (p : position) (v : jsval) (price : prim) :
  position_at d i = Some p →
  c !! symbol p = Some v → ToBoolean v = true → quote_price v = Some price →
  is_zero (avg_cost p) = true →
  ∃ p', position_at (refreshPositionPrices c d) i = Some p'
        ∧ unrealized_pnl_pct p' = ((ToNumber price - avg_cost p) / avg_cost p * 100)%float
        ∧ is_finite (unrealized_pnl_pct p') = false
        ∧ is_zero (unrealized_pnl_pct p') = false.
Proof.
  intros Hp Hv Ht Hq Hz. exists (mark_to price p).
  rewrite position_at_refresh, Hp. simpl.
  rewrite (refresh_position_hit c p v price) by done.
  pose proof (div_zero_times_100 (ToNumber price - avg_cost p) (avg_cost p) Hz) as Hf.
  repeat split; [exact Hf | by apply not_finite_not_zero].
Qed.

(** C6 (as the code has it). For a position whose cache entry is truthy,
    the projection stores the extracted price in [current_price] and
    recomputes the three marks from it, in binary64 arithmetic.  With
    AAPL, 10 shares at 150 and a cached 160: 100, 1600 and
    6.666666666666667 (the double 0x1.aaaaaaaaaaaabp+2, strictly between
    its two neighbours). *)
Theorem refreshPositionPrices_marks
    (c : cache) (d : portfolio) (i : nat) (p : position) (v : jsval) (price : prim) :
  position_at d i = Some p →
  c !! symbol p = Some v → ToBoolean v = true → quote_price v = Some price →
  ∃ p', position_at (refreshPositionPrices c d) i = Some p'
        ∧ current_price p' = price
        ∧ unrealized_pnl p' = ((ToNumber price - avg_cost p) * quantity p)%float
        ∧ market_value p' = (ToNumber price * quantity p)%float
        ∧ unrealized_pnl_pct p' = ((ToNumber price - avg_cost p) / avg_cost p * 100)%float
        ∧ (symbol p = "AAPL" → quantity p = 10%float → avg_cost p = 150%float →
           price = PNum 160 →
           unrealized_pnl p' = 100%float
           ∧ market_value p' = 1600%float
           ∧ unrealized_pnl_pct p' = 0x1.aaaaaaaaaaaabp+2%float
           ∧ (0x1.aaaaaaaaaaaaap+2 <? unrealized_pnl_pct p')%float = true
           ∧ (unrealized_pnl_pct p' <? 0x1.aaaaaaaaaaaacp+2)%float = true).
Proof.
  intros Hp Hv Ht Hq. exists (mark_to price p).
  rewrite position_at_refresh, Hp. simpl.
  rewrite (refresh_position_hit c p v price) by done.
  do 5 (split; [reflexivity|]).
  intros _ Hqty Havg ->. simpl. rewrite Hqty, Havg. by repeat split.
Qed.

(** C7. The projection is a frame around the four marks: the snapshot-level
    fields and the number of positions stay, every position keeps its
    symbol, quantity, average cost and weight, and a position whose symbol
    has no cache entry stays as it was. *)
Theorem refreshPositionPrices_frame (c : cache) (d : portfolio) :
  cash (refreshPositionPrices c d) = cash d
  ∧ total_equity (refreshPositionPrices c d) = total_equity d
  ∧ total_market_value (refreshPositionPrices c d) = total_market_value d
  ∧ total_unrealized_pnl (refreshPositionPrices c d) = total_unrealized_pnl d
  ∧ total_return (refreshPositionPrices c d) = total_return d
  ∧ total_return_pct (refreshPositionPrices c d) = total_return_pct d
  ∧ total_trades (refreshPositionPrices c d) = total_trades d
  ∧ provider (refreshPositionPrices c d) = provider d
  ∧ length <$> positions (refreshPositionPrices c d) = length <$> positions d
  ∧ ∀ i p, position_at d i = Some p →
      ∃ p', position_at (refreshPositionPrices c d) i = Some p'
            ∧ symbol p' = symbol p
            ∧ quantity p' = quantity p
            ∧ avg_cost p' = avg_cost p
            ∧ weight_pct p' = weight_pct p
            ∧ (c !! symbol p = None → p' = p).
Proof.
  repeat split.
  1-8: unfold refreshPositionPrices; by destruct (positions d).
  - unfold refreshPositionPrices. destruct (positions d) as [ps|] eqn:E; simpl.
    + by rewrite length_fmap.
    + by rewrite E.
  - intros i p Hp. exists (refresh_position c p).
    rewrite position_at_refresh, Hp. split; [done|].
    destruct (refresh_position_cases c p) as [E|[price E]].
    + rewrite E. by repeat split.
    + repeat split; try (by rewrite E).
      intros Hnone. apply refresh_position_miss. unfold cache_get. by rewrite Hnone.
Qed.

(** C8. The projection is a function of the snapshot and the cache, and
    applying it twice is applying it once.  As the [price_update] handler
    runs it, nothing but the two globals changes: no fetch is issued, no
    frame is sent, no timer is set. *)
Theorem refreshPositionPrices_idempotent (c : cache) (d : portfolio) :
  refreshPositionPrices c (refreshPositionPrices c d) = refreshPositionPrices c d
  ∧ ∀ (st : client) (prices : option cache),
      onmessage (PriceUpdate prices) st
        = set_data (priceCache (onmessage (PriceUpdate prices) st))
                   (portfolioData (onmessage (PriceUpdate prices) st)) st
      ∧ (portfolioData (onmessage (PriceUpdate prices) st)
           = refreshPositionPrices (priceCache (onmessage (PriceUpdate prices) st))
                                   (portfolioData st)
         ∨ portfolioData (onmessage (PriceUpdate prices) st) = portfolioData st).
Proof.
  split.
  - unfold refreshPositionPrices at 2 3.
    destruct (positions d) as [ps|] eqn:E.
    + unfold refreshPositionPrices. simpl. do 2 f_equal.
      rewrite <- list_fmap_compose. apply list_fmap_ext.
      intros _ p _. apply refresh_position_idem.
    + unfold refreshPositionPrices. by rewrite E.
  - intros st prices. unfold onmessage.
    destruct (updateTicker _); simpl; split; auto.
Qed.

Lemma refresh_position_delete_falsy (c : cache) (sym : string) (p : position) :
  ToBoolean (cache_get c sym) = false →
  refresh_position c p = refresh_position (delete sym c) p.
Proof.
  intros Hf. destruct (decide (symbol p = sym)) as [<-|Hne].
  - rewrite refresh_position_miss by done.
    rewrite refresh_position_miss; [done|].
    unfold cache_get. by rewrite lookup_delete_eq.
  - unfold refresh_position, cache_get. by rewrite lookup_delete_ne.
Qed.

(** C9 (as the code has it). A cache entry that is falsy (the bare number
    0, the empty string, [null], [undefined]) is to the projection what no
    entry is: the projection equals the one over the cache without that
    symbol, and the position's marks stay.  A record is truthy whatever its
    [current] field. *)
Theorem refreshPositionPrices_falsy_entry (c : cache) (d : portfolio) (sym : string) :
  ToBoolean (cache_get c sym) = false →
  refreshPositionPrices c d = refreshPositionPrices (delete sym c) d
  ∧ (∀ i p, position_at d i = Some p → symbol p = sym →
       position_at (refreshPositionPrices c d) i = Some p)
  ∧ ToBoolean (PNum 0) = false ∧ ToBoolean (PStr "") = false
  ∧ ToBoolean PNull = false ∧ ToBoolean PUndefined = false
  ∧ ∀ fields, ToBoolean (JRecord fields) = true.
Proof.
  intros Hf. repeat split.
  - apply refreshPositionPrices_ext. intros p.
    by apply refresh_position_delete_falsy.
  - intros i p Hp <-. rewrite position_at_refresh, Hp. simpl.
    by rewrite refresh_position_miss.
Qed.

Lemma refresh_position_either_shape
    (c : cache) (sym : string) (x : float) (fields : gmap string prim) (p : position) :
  fields !! "current" = Some (PNum x) → ToBoolean (PNum x) = true →
  refresh_position (<[sym := JPrim (PNum x)]> c) p
    = refresh_position (<[sym := JRecord fields]> c) p.
Proof.
  intros Hc Ht. destruct (decide (symbol p = sym)) as [<-|Hne].
  - rewrite (refresh_position_hit _ p (PNum x) (PNum x));
      [|by rewrite lookup_insert_eq|done|done].
    rewrite (refresh_position_hit _ p (JRecord fields) (PNum x));
      [done|by rewrite lookup_insert_eq|done|].
    unfold quote_price. simpl. by rewrite Hc.
  - unfold refresh_position, cache_get. by rewrite !lookup_insert_ne.
Qed.

(** C10 (as the code has it). A bare number [x] and a record whose
    [current] is [x] yield the same price to every consumer: the ticker
    shows the same price, the trade preview computes the same reference
    price and cost, and, when [x] is truthy (not 0, not NaN), the
    projection computes the same snapshot. *)
Theorem consumers_either_shape (x : float) (fields : gmap string prim) :
  fields !! "current" = Some (PNum x) →
  quote_price (PNum x) = Some (PNum x)
  ∧ quote_price (JRecord fields) = Some (PNum x)
  ∧ (∀ sym, ticker_price <$> ticker_entry sym (PNum x) = Some (PNum x)
            ∧ ticker_price <$> ticker_entry sym (JRecord fields) = Some (PNum x))
  ∧ (∀ (c : cache) sym qty priceInput,
       updateTradeCostPreview (<[sym := JPrim (PNum x)]> c) sym qty priceInput
         = updateTradeCostPreview (<[sym := JRecord fields]> c) sym qty priceInput)
  ∧ (ToBoolean (PNum x) = true →
     ∀ (c : cache) sym d,
       refreshPositionPrices (<[sym := JPrim (PNum x)]> c) d
         = refreshPositionPrices (<[sym := JRecord fields]> c) d).
Proof.
  intros Hc.
  assert (quote_price (JRecord fields) = Some (PNum x)) as Hq
    by (unfold quote_price; simpl; by rewrite Hc).
  split; [done|]. split; [done|]. split; [|split].
  - intros sym. unfold ticker_entry. rewrite Hq. by split.
  - intros c sym qty priceInput. unfold updateTradeCostPreview, cache_get.
    rewrite !lookup_insert_eq. simpl. unfold quote_price. simpl. rewrite Hc. simpl.
    unfold js_or. simpl.
    destruct (negb (is_zero priceInput || is_nan priceInput)); [done|].
    destruct (negb (is_zero x || is_nan x)) eqn:E; simpl; by rewrite E.
  - intros Ht c sym d. apply refreshPositionPrices_ext. intros p.
    by apply refresh_position_either_shape.
Qed.

(** ** The client *)

(** Every handler is a composition of field updates; the lemmas below read
    one field through them. *)

Lemma close_socket_again (i : nat) (ss : list ready_state) :
  close_socket i (close_socket i ss) = close_socket i ss.
Proof.
  unfold close_socket at 2 3. destruct (ss !! i) as [[]|] eqn:E.
  - unfold close_socket. rewrite list_lookup_insert_eq; [done|]. by eapply lookup_lt_Some.
  - unfold close_socket. rewrite list_lookup_insert_eq; [done|]. by eapply lookup_lt_Some.
  - unfold close_socket. by rewrite E.
  - unfold close_socket. by rewrite E.
  - unfold close_socket. by rewrite E.
Qed.


Lemma handleLogout_session (st : client) :
  authToken (handleLogout st) = ""
  ∧ currentUser (handleLogout st) = None
  ∧ storedToken (handleLogout st) = None
  ∧ authOverlay (handleLogout st) = true.
Proof. unfold handleLogout, close_ws. simpl. by destruct (ws st). Qed.


Lemma handleLogout_keeps (st : client) :
  ws (handleLogout st) = ws st
  ∧ timers (handleLogout st) = timers st
  ∧ inflight (handleLogout st) = inflight st
  ∧ priceCache (handleLogout st) = priceCache st
  ∧ portfolioData (handleLogout st) = portfolioData st
  ∧ now (handleLogout st) = now st
  ∧ sent (handleLogout st) = sent st.
Proof.
  unfold handleLogout, close_ws. simpl.
  destruct (ws st) eqn:E; simpl; by rewrite ?E.
Qed.

Lemma handleLogout_again (st : client) :
  handleLogout (handleLogout st) = handleLogout st.
Proof.
  unfold handleLogout, close_ws. simpl.
  destruct (ws st) as [i|] eqn:E; simpl; rewrite ?E; [|done].
  unfold set_sockets, set_display, set_session. simpl. by rewrite close_socket_again.
Qed.





Ltac handlers :=
  unfold fire, onmessage, onopen, onclose, onerror, heartbeat, reconcile,
    initApp_ready, after_auto_login, start_reconciliation, initApp, handleLogin,
    loadPortfolio, loadMarkets, close_ws,
    connectWebSocket, setTimeout, setInterval, authFetch, plainFetch,
    decode_portfolio, grant.

Ltac cases :=
  repeat (simpl;
          match goal with
          | |- context [match ?x with _ => _ end] => is_var x; destruct x
          | |- context [match ?x with _ => _ end] => destruct x eqn:?
          end).

(** The case analysis of [resume]: which function waits, how the fetch
    settled, and whether [authFetch] saw a 401. *)
Ltac settled k r :=
  let status := fresh "status" in
  let b := fresh "b" in
  destruct k; destruct r as [|status b]; simpl;
  unfold authFetch_settle;
  try destruct (status =? 401)%Z; simpl.


Lemma handleLogout_now (st : client) : now (handleLogout st) = now st.
Proof. apply handleLogout_keeps. Qed.

Lemma handleLogout_token (st : client) : authToken (handleLogout st) = "".
Proof. apply handleLogout_session. Qed.


Lemma fire_now (f : callback) (st : client) : now (fire f st) = now st.
Proof. handlers. by cases. Qed.


Lemma onmessage_now (m : message) (st : client) : now (onmessage m st) = now st.
Proof. handlers. by cases. Qed.

Lemma resume_now (k : awaiting) (r : outcome) (st : client) :
  now (resume k r st) = now st.
Proof.
  settled k r; handlers; cases; rewrite ?handleLogout_now; simpl;
    by rewrite ?handleLogout_now.
Qed.



Lemma step_now (st st' : client) (e : event) :
  step st e = Some st' → (now st ≤ now st')%Z.
Proof.
  destruct e; simpl.
  - destruct (0 <=? dt)%Z eqn:E; intros [= <-]. simpl. lia.
  - destruct (timers st !! k) as [t|]; simpl; [|done].
    destruct (due t <=? now st)%Z; intros [= <-]. by rewrite fire_now.
  - destruct (sockets st !! i) as [[]|]; by intros [= <-].
  - destruct (sockets st !! i) as [[]|]; intros [= <-]. by rewrite onmessage_now.
  - destruct (sockets st !! i) as [[]|]; intros [= <-];
      unfold onerror, close_ws; by destruct (ws st).
  - destruct (sockets st !! i) as [[]|]; by intros [= <-].
  - destruct (inflight st !! k) as [[rq aw]|]; simpl; [|done].
    intros [= <-]. by rewrite resume_now.
  - intros [= <-]. unfold handleLogin. by destruct (_ && _).
  - intros [= <-]. by rewrite handleLogout_now.
  - by intros [= <-].
  - by intros [= <-].
  - by intros [= <-].
Qed.

Lemma steps_now (es : list event) (st st' : client) :
  steps st es = Some st' → (now st ≤ now st')%Z.
Proof.
  revert st. induction es as [|e es IH]; intros st; simpl.
  - by intros [= <-].
  - destruct (step st e) as [st1|] eqn:E; simpl; [|done].
    intros H. apply step_now in E. apply IH in H. lia.
Qed.


Lemma fire_guard (st st' : client) (k : nat) :
  step st (Fire k) = Some st' →
  ∃ t, timers st !! k = Some t ∧ (due t ≤ now st)%Z.
Proof.
  simpl. destruct (timers st !! k) as [t|]; simpl; [|done].
  destruct (due t <=? now st)%Z eqn:E; [|done].
  intros _. exists t. split; [done|lia].
Qed.

Lemma is_pull_count (fs : list (request * awaiting)) (rq : request) :
  length (List.filter is_pull (fs ++ [(rq, AwPortfolio)]))
    = S (length (List.filter is_pull fs)).
Proof. rewrite List.filter_app, length_app. simpl. lia. Qed.

(** C2 (as the code has it). Whenever a socket closes, whatever the cause,
    the label shows Disconnected and exactly one reconnect is appended to
    the timers, due 5000 ms later; it cannot run earlier.  No timer is
    removed, so a heartbeat interval stays (its tick sends nothing unless
    the held socket is open).  A transport error closes the held socket.
    Logout closes the held socket and leaves every timer in place, so the
    closure it causes schedules the reconnect like any other. *)
Theorem socket_close_schedules_reconnect (st : client) (i : nat) (s : ready_state) :
  sockets st !! i = Some s → s ≠ CLOSED →
  ∃ st',
    step st (SocketClose i) = Some st'
    ∧ statusLabel st' = Disconnected
    ∧ sockets st' = <[i := CLOSED]> (sockets st)
    ∧ timers st' = timers st
                   ++ [{| due := now st + 5000; period := None; run := ConnectWebSocket |}]
    ∧ (∀ es st1 k st2 t,
         steps st' es = Some st1 → timers st1 !! k = Some t →
         due t = (now st + 5000)%Z → step st1 (Fire k) = Some st2 →
         (now st + 5000 ≤ now st1)%Z)
    ∧ (sockets st' !! i ≠ Some OPEN ∧ (ws st' = Some i → sent (heartbeat st') = sent st'))
    ∧ step st (SocketError i) = Some (close_ws st)
    ∧ timers (handleLogout st) = timers st
    ∧ (ws st = Some i → s = OPEN ∨ s = CONNECTING →
       sockets (handleLogout st) !! i = Some CLOSING).
Proof.
  intros Hs Hne.
  assert (i < length (sockets st)) as Hlt by (by eapply lookup_lt_Some).
  eexists. split.
  { simpl. rewrite Hs. destruct s; [reflexivity..|done]. }
  split; [done|]. split; [done|]. split; [done|]. split.
  { intros es st1 k st2 t Hrun Ht Hdue Hfire.
    apply steps_now in Hrun. simpl in Hrun.
    apply fire_guard in Hfire as (t' & Ht' & Hle).
    rewrite Ht in Ht'. injection Ht' as <-. lia. }
  split.
  { simpl. rewrite list_lookup_insert_eq by done. split; [done|].
    intros Hw. unfold heartbeat. simpl. rewrite Hw.
    by rewrite list_lookup_insert_eq. }
  split.
  { simpl. rewrite Hs. by destruct s. }
  split; [apply handleLogout_keeps|].
  intros Hw Hlive. unfold handleLogout, close_ws. simpl. rewrite Hw. simpl.
  unfold close_socket. rewrite Hs.
  destruct Hlive as [-> | ->]; by rewrite list_lookup_insert_eq.
Qed.


(** C4 (as the code has it). The 60 s tick pulls the snapshot whenever a
    token is held, whatever is still in flight: each such tick adds one pull
    to the fetches in flight.  It is skipped only when no token is held.
    Every pull that settles with a decodable reply other than a 401 replaces
    the snapshot. *)
Theorem reconcile_every_tick (st : client) :
  (truthy (authToken st) = true →
     inflight (reconcile st)
       = inflight st ++ [({| url := "/api/portfolio";
                             opts := authFetch_options (authToken st) no_options |},
                          AwPortfolio)]
     ∧ pulls_in_flight (reconcile st) = S (pulls_in_flight st))
  ∧ (truthy (authToken st) = false → reconcile st = st)
  ∧ (∀ k t, timers st !! k = Some t → run t = Reconcile → period t = Some 60000%Z →
       (due t ≤ now st)%Z →
       step st (Fire k)
         = Some (reconcile
                   (set_clock (now st)
                      (<[k := {| due := now st + 60000; period := Some 60000%Z;
                                 run := Reconcile |}]> (timers st)) st)))
  ∧ (∀ status b d, status ≠ 401%Z → decode_portfolio b = Some d →
       resume AwPortfolio (Response status b) st = set_data (priceCache st) d st).
Proof.
  split; [|split; [|split]].
  - intros Ht. unfold reconcile. rewrite Ht. split; [done|].
    unfold pulls_in_flight, loadPortfolio, authFetch. simpl. apply is_pull_count.
  - intros Ht. unfold reconcile. by rewrite Ht.
  - intros k t Hk Hr Hp Hd. simpl. rewrite Hk. simpl.
    destruct (due t <=? now st)%Z eqn:E; [|lia].
    by rewrite Hp, Hr.
  - intros status b d Hs Hd. simpl. unfold authFetch_settle.
    destruct (status =? 401)%Z eqn:E; [lia|]. simpl. by rewrite Hd.
Qed.

(** * Further properties *)

(** ** [authFetch]: the request it builds *)

(** X1. [authFetch] touches two headers only.  It never replaces a content
    type the caller set, adds none to a call without a method or with
    [GET], and gives [application/json] to any other call that set none. *)
Theorem authFetch_options_content_type (tok : string) (o : options) :
  method (authFetch_options tok o) = method o
  ∧ (∀ name, name ≠ "Authorization" → name ≠ "Content-Type" →
       headers (authFetch_options tok o) !! name = headers o !! name)
  ∧ (∀ ct, headers o !! "Content-Type" = Some ct → ct ≠ "" →
       headers (authFetch_options tok o) !! "Content-Type" = Some ct)
  ∧ (method o = None ∨ method o = Some "" ∨ method o = Some "GET" →
       headers (authFetch_options tok o) !! "Content-Type"
         = headers o !! "Content-Type")
  ∧ (∀ m, method o = Some m → m ≠ "" → m ≠ "GET" →
       headers o !! "Content-Type" = None ∨ headers o !! "Content-Type" = Some "" →
       headers (authFetch_options tok o) !! "Content-Type" = Some "application/json").
Proof.
  unfold authFetch_options. simpl.
  split; [done|]. split; [|split; [|split]].
  - intros name Ha Hc.
    repeat match goal with |- context [if ?b then _ else _] => destruct b end;
      by rewrite ?lookup_insert_ne by done.
  - intros ct Hct Hne.
    assert (truthy ct = true) as Ht
      by (unfold truthy; destruct (String.eqb_spec ct ""); [done|reflexivity]).
    destruct (truthy tok); rewrite ?lookup_insert_ne by done; rewrite Hct; simpl;
      rewrite Ht, !andb_false_r; by rewrite ?lookup_insert_ne by done.
  - intros [-> | [-> | ->]]; simpl;
      destruct (truthy tok); by rewrite ?lookup_insert_ne by done.
  - intros m -> Hm Hget Hct.
    assert (truthy m = true) as Ht
      by (unfold truthy; destruct (String.eqb_spec m ""); [done|reflexivity]).
    assert (String.eqb m "GET" = false) as Hg
      by (destruct (String.eqb_spec m "GET"); [done|reflexivity]).
    simpl. rewrite Ht, Hg. simpl.
    destruct (truthy tok); rewrite ?lookup_insert_ne by done;
      destruct Hct as [-> | ->]; simpl; by rewrite lookup_insert_eq.
Qed.

(** ** [handleLogout] *)

(** X2. Logging out twice is logging out once.  Logout leaves the cache, the
    snapshot, the timers and the fetches in flight alone, constructs no
    socket, and changes the state of no socket but the one held in [ws]. *)
Theorem handleLogout_idempotent (st : client) :
  handleLogout (handleLogout st) = handleLogout st
  ∧ priceCache (handleLogout st) = priceCache st
  ∧ portfolioData (handleLogout st) = portfolioData st
  ∧ timers (handleLogout st) = timers st
  ∧ inflight (handleLogout st) = inflight st
  ∧ length (sockets (handleLogout st)) = length (sockets st)
  ∧ ∀ j, ws st ≠ Some j → sockets (handleLogout st) !! j = sockets st !! j.
Proof.
  split; [apply handleLogout_again|].
  destruct (handleLogout_keeps st) as (_ & Ht & Hi & Hc & Hd & _).
  do 4 (split; [done|]).
  unfold handleLogout, close_ws. simpl.
  destruct (ws st) as [i|] eqn:E; simpl; rewrite ?E; [|done].
  unfold close_socket. split.
  - destruct (sockets st !! i) as [[]|]; by rewrite ?length_insert.
  - intros j Hj. assert (i ≠ j) by congruence.
    destruct (sockets st !! i) as [[]|]; by rewrite ?list_lookup_insert_ne.
Qed.

(** ** Merging price updates *)

(** X14. Two [price_update] payloads merged one after the other are one
    merge of the later payload laid over the earlier; merging a payload a
    second time, or merging an empty one, changes nothing. *)
Theorem Object_assign_compose (c u1 u2 : cache) :
  Object_assign (Object_assign c (Some u1)) (Some u2)
    = Object_assign c (Some (u2 ∪ u1))
  ∧ Object_assign (Object_assign c (Some u1)) (Some u1) = Object_assign c (Some u1)
  ∧ Object_assign c (Some ∅) = c
  ∧ dom (Object_assign c (Some u1)) = dom u1 ∪ dom c.
Proof.
  rewrite !Object_assign_union. repeat split.
  - by rewrite (assoc_L (∪)).
  - by rewrite (assoc_L (∪)), (idemp_L (∪)).
  - by rewrite (left_id_L ∅ (∪)).
  - by rewrite dom_union_L.
Qed.

(** ** Projection over successive caches *)

Lemma refresh_position_absorb (c c' : cache) (p : position) :
  (∀ sym, ToBoolean (cache_get c' sym) = true → ToBoolean (cache_get c sym) = true) →
  refresh_position c (refresh_position c' p) = refresh_position c p.
Proof.
  intros Hcover. unfold refresh_position at 2. cbv zeta.
  destruct (ToBoolean (cache_get c' (symbol p))) eqn:Ht'; [|done].
  destruct (quote_price (cache_get c' (symbol p))) as [price'|]; [|done].
  pose proof (Hcover _ Ht') as Ht.
  destruct (truthy_not_null _ Ht) as [price Hq].
  unfold refresh_position. simpl. by rewrite Ht, Hq.
Qed.

(** X15. The marks carry no history: when every symbol that had a truthy
    entry in an earlier cache still has one in the current cache,
    projecting with the earlier and then with the current cache gives what
    projecting with the current cache alone gives. *)
Theorem refreshPositionPrices_absorbs (c c' : cache) (d : portfolio) :
  (∀ sym, ToBoolean (cache_get c' sym) = true → ToBoolean (cache_get c sym) = true) →
  refreshPositionPrices c (refreshPositionPrices c' d) = refreshPositionPrices c d.
Proof.
  intros Hcover. unfold refreshPositionPrices at 2 3.
  destruct (positions d) as [ps|] eqn:E.
  - unfold refreshPositionPrices. simpl. do 2 f_equal.
    rewrite <- list_fmap_compose. apply list_fmap_ext.
    intros _ p _. by apply refresh_position_absorb.
  - unfold refreshPositionPrices. by rewrite E.
Qed.

(** ** The ticker and a cached [null] *)

Lemma ticker_entry_null (sym : string) (v : jsval) :
  ticker_entry sym v = None ↔ v = JPrim PNull.
Proof.
  unfold ticker_entry, quote_price.
  destruct v as [[]|]; simpl; split; (congruence || done).
Qed.

Lemma updateTicker_null (c : cache) :
  updateTicker c = None ↔ ∃ sym, c !! sym = Some (JPrim PNull).
Proof.
  unfold updateTicker. rewrite mapM_None, Exists_exists. split.
  - intros ([sym v] & Hin & Hnone). apply ticker_entry_null in Hnone.
    simpl in Hnone. subst v. exists sym. by apply elem_of_map_to_list.
  - intros [sym Hsym]. exists (sym, JPrim PNull). split.
    + by apply elem_of_map_to_list.
    + by apply ticker_entry_null.
Qed.

(** X3. [updateTicker] throws exactly when some cached value is [null];
    otherwise it renders one item per cached symbol, each showing the
    price every consumer extracts from that symbol's entry. *)
Theorem updateTicker_throws_on_null (c : cache) :
  (updateTicker c = None ↔ ∃ sym, c !! sym = Some (JPrim PNull))
  ∧ ∀ items, updateTicker c = Some items →
      length items = size c
      ∧ ∀ i item, items !! i = Some item →
          ∃ v, c !! ticker_sym item = Some v
               ∧ quote_price v = Some (ticker_price item).
Proof.
  split; [apply updateTicker_null|].
  intros items Hitems. unfold updateTicker in Hitems.
  apply mapM_Some in Hitems. split.
  - rewrite <- (Forall2_length _ _ _ Hitems). apply length_map_to_list.
  - intros i item Hi.
    destruct (Forall2_lookup_r _ _ _ _ _ Hitems Hi) as ([sym v] & Hkv & Hf).
    apply list_elem_of_lookup_2, elem_of_map_to_list in Hkv.
    unfold ticker_entry in Hf. simpl in Hf.
    destruct (quote_price v) as [price|] eqn:Hq; simpl in Hf; [|done].
    destruct (if typeof_object v then member v "change_pct" else Some (PNum 0));
      simpl in Hf; [|done].
    injection Hf as <-. simpl. eauto.
Qed.

(** X4. A [price_update] always merges its payload into the cache, but the
    projection runs only if the ticker did not throw: while the merged
    cache holds a [null] the snapshot stays as it was, and a [null] already
    cached blocks every update that does not overwrite that symbol. *)
Theorem price_update_blocked_by_null (st : client) (prices : option cache) :
  priceCache (onmessage (PriceUpdate prices) st)
    = Object_assign (priceCache st) prices
  ∧ ((∃ sym, Object_assign (priceCache st) prices !! sym = Some (JPrim PNull)) →
       portfolioData (onmessage (PriceUpdate prices) st) = portfolioData st)
  ∧ ((∀ sym, Object_assign (priceCache st) prices !! sym ≠ Some (JPrim PNull)) →
       portfolioData (onmessage (PriceUpdate prices) st)
         = refreshPositionPrices (Object_assign (priceCache st) prices)
             (portfolioData st))
  ∧ (∀ sym, priceCache st !! sym = Some (JPrim PNull) →
       (∀ u, prices = Some u → u !! sym = None) →
       portfolioData (onmessage (PriceUpdate prices) st) = portfolioData st).
Proof.
  assert (∀ sym, Object_assign (priceCache st) prices !! sym = Some (JPrim PNull) →
            portfolioData (onmessage (PriceUpdate prices) st) = portfolioData st) as Hnull.
  { intros sym Hsym. unfold onmessage.
    destruct (updateTicker _) eqn:E; [|done].
    assert (updateTicker (Object_assign (priceCache st) prices) = None) as E'
      by (apply updateTicker_null; eauto).
    congruence. }
  split; [|split; [|split]].
  - unfold onmessage. by destruct (updateTicker _).
  - intros [sym Hsym]. by apply (Hnull sym).
  - intros Hnone. unfold onmessage.
    destruct (updateTicker _) eqn:E; [done|].
    apply updateTicker_null in E as [sym Hsym]. by destruct (Hnone sym).
  - intros sym Hsym Hkeep. apply (Hnull sym).
    destruct prices as [u|]; [|done].
    rewrite Object_assign_lookup, (Hkeep u eq_refl). done.
Qed.

(** ** Seeding the cache from the market indices *)

Lemma seed_cache_app (fr1 fr2 : list (string * jsval)) (c : cache) :
  seed_cache (fr1 ++ fr2) c = seed_cache fr2 (seed_cache fr1 c).
Proof. unfold seed_cache. apply foldl_app. Qed.

Lemma seed_cache_untouched (fr : list (string * jsval)) (c : cache) (sym : string) :
  Forall (λ idx, idx.1 ≠ sym ∨ idx.1 = "") fr → seed_cache fr c !! sym = c !! sym.
Proof.
  intros H. revert c. induction H as [|[k v] fr Hk _ IH]; intros c; [done|].
  change (seed_cache ((k, v) :: fr) c)
    with (seed_cache fr (if truthy k then <[k := v]> c else c)).
  rewrite IH. simpl in Hk. unfold truthy.
  destruct (String.eqb_spec k "") as [->|Hne]; simpl; [done|].
  destruct Hk as [Hk|Hk]; [|done]. by rewrite lookup_insert_ne.
Qed.

(** X5. [loadMarkets] seeds the cache from the first region: an index
    without a symbol is skipped, a symbol absent from the region keeps its
    entry, and for a symbol listed more than once the last index wins.  A
    reply that is a 401 or carries no region leaves the cache alone.
    ([BodyMarkets fr] stands for a reply that [showRegion] renders without
    an exception and whose first region is a list of index objects.) *)
Theorem loadMarkets_seeds_cache (fr : list (string * jsval)) (c : cache) (sym : string) :
  seed_cache fr c !! "" = c !! ""
  ∧ (Forall (λ idx, idx.1 ≠ sym) fr → seed_cache fr c !! sym = c !! sym)
  ∧ (∀ before v after,
       fr = before ++ (sym, v) :: after → sym ≠ "" →
       Forall (λ idx, idx.1 ≠ sym) after →
       seed_cache fr c !! sym = Some v)
  ∧ (∀ (st : client) status,
       status ≠ 401%Z →
       priceCache (resume AwMarkets (Response status (BodyMarkets fr)) st)
         = seed_cache fr (priceCache st)
       ∧ portfolioData (resume AwMarkets (Response status (BodyMarkets fr)) st)
         = portfolioData st)
  ∧ (∀ (st : client) b,
       priceCache (resume AwMarkets (Response 401 b) st) = priceCache st
       ∧ priceCache (resume AwMarkets NetworkError st) = priceCache st
       ∧ priceCache (resume AwMarkets (Response 200 BodyJson) st) = priceCache st).
Proof.
  split; [|split; [|split; [|split]]].
  - apply seed_cache_untouched. apply Forall_forall. intros [k v] _. simpl.
    destruct (decide (k = "")); auto.
  - intros H. apply seed_cache_untouched. eapply Forall_impl; [exact H|]. auto.
  - intros before v after -> Hne Hafter.
    rewrite seed_cache_app.
    change (seed_cache ((sym, v) :: after) (seed_cache before c))
      with (seed_cache after
              (if truthy sym then <[sym := v]> (seed_cache before c)
               else seed_cache before c)).
    rewrite seed_cache_untouched
      by (eapply Forall_impl; [exact Hafter|]; auto).
    unfold truthy. destruct (String.eqb_spec sym ""); [done|]. simpl.
    by rewrite lookup_insert_eq.
  - intros st status Hs. simpl. unfold authFetch_settle.
    destruct (status =? 401)%Z eqn:E; [lia|]. done.
  - intros st b. simpl. repeat split. apply handleLogout_keeps.
Qed.

(** ** The trade cost preview *)

(** X16. In the trade preview a typed price that is neither 0 nor NaN wins
    over the cache; a falsy cache entry counts as no entry, and with no
    typed price either the reference price is 0; otherwise the price
    extracted from the cache is used when it is itself truthy. *)
Theorem updateTradeCostPreview_precedence (c : cache) (sym : string) (qty typed : float) :
  (ToBoolean_prim (PNum typed) = true →
     updateTradeCostPreview c sym qty typed = (PNum typed, (qty * typed)%float))
  ∧ (ToBoolean (cache_get c sym) = false →
       updateTradeCostPreview c sym qty typed
         = updateTradeCostPreview (delete sym c) sym qty typed
       ∧ (ToBoolean_prim (PNum typed) = false →
          updateTradeCostPreview c sym qty typed = (PNum 0, (qty * 0)%float)))
  ∧ (∀ v price,
       ToBoolean_prim (PNum typed) = false →
       c !! sym = Some v → ToBoolean v = true → quote_price v = Some price →
       updateTradeCostPreview c sym qty typed
         = if ToBoolean_prim price then (price, (qty * ToNumber price)%float)
           else (PNum 0, (qty * 0)%float)).
Proof.
  unfold updateTradeCostPreview, js_or. cbv zeta. split; [|split].
  - intros Ht. rewrite Ht. cbn iota. by rewrite Ht.
  - intros Hf.
    assert (cache_get (delete sym c) sym = JPrim PUndefined) as ->
      by (unfold cache_get; by rewrite lookup_delete_eq).
    rewrite Hf. cbn [ToBoolean ToBoolean_prim]. split; [done|].
    intros Ht. rewrite Ht. by cbn.
  - intros v price Ht Hv Htv Hq.
    assert (cache_get c sym = v) as -> by (unfold cache_get; by rewrite Hv).
    rewrite Htv, Hq, Ht. cbn [default]. unfold id.
    by destruct (ToBoolean_prim price).
Qed.

(** ** Amounts and orders *)

Lemma SFcompare_finite_refl (s : bool) (m : positive) (e : Z) :
  SFcompare (S754_finite s m e) (S754_finite s m e) = Some Eq.
Proof.
  simpl. rewrite Z.compare_refl.
  change (PosDef.Pos.compare_cont Eq m m) with (Pos.compare_cont Eq m m).
  rewrite Pos.compare_cont_refl. by destruct s.
Qed.

Lemma transfer_refused_spec (amount : float) :
  transfer_refused amount = negb (0 <? amount)%float.
Proof.
  unfold transfer_refused, is_nan.
  rewrite FloatAxioms.eqb_spec, leb_spec, ltb_spec.
  change (Prim2SF 0) with (S754_zero false).
  unfold SFeqb, SFleb, SFltb.
  destruct (Prim2SF amount) as [s|s| |s m e].
  - reflexivity.
  - by destruct s.
  - reflexivity.
  - rewrite SFcompare_finite_refl. by destruct s.
Qed.

Lemma negative_is_truthy (x : float) :
  (x <? 0)%float = true → ToBoolean_prim (PNum x) = true.
Proof.
  simpl. unfold is_nan, is_zero. rewrite !FloatAxioms.eqb_spec, ltb_spec.
  change (Prim2SF 0) with (S754_zero false).
  change (Prim2SF zero) with (S754_zero false).
  unfold SFeqb, SFltb.
  destruct (Prim2SF x) as [s|s| |s m e]; try done.
  - by destruct s.
  - rewrite SFcompare_finite_refl. by destruct s.
Qed.

(** X12. A transfer is requested exactly when the parsed amount is greater
    than 0: NaN, zero and negative amounts change nothing, every other
    amount posts to [/api/transfer].  A reply that is refused, or that fails,
    starts no snapshot pull. *)
Theorem handleTransfer_positive_amounts (amount : float) (st : client) :
  ((0 <? amount)%float = true →
     handleTransfer amount st = authFetch "/api/transfer" post AwOther st
     ∧ headers (authFetch_options (authToken st) post) !! "Content-Type"
       = Some "application/json")
  ∧ ((0 <? amount)%float = false → handleTransfer amount st = st)
  ∧ (∀ status b, ok status = false → status ≠ 401%Z →
       handleTransfer_resume (Response status b) st = st)
  ∧ handleTransfer_resume NetworkError st = st
  ∧ (∀ status b, pulls_in_flight (handleTransfer_resume (Response status b) st)
                   ≠ pulls_in_flight st →
       ok status = true ∧ b ≠ BodyInvalid ∧ is_Some (currentUser st)).
Proof.
  unfold handleTransfer. rewrite transfer_refused_spec.
  split; [|split; [|split; [|split]]].
  - intros ->. split; [done|]. unfold authFetch_options. simpl.
    destruct (truthy (authToken st)); rewrite ?lookup_insert_ne by done;
      rewrite lookup_empty; simpl; by rewrite lookup_insert_eq.
  - by intros ->.
  - intros status b Hok Hs. unfold handleTransfer_resume, authFetch_settle.
    destruct (status =? 401)%Z eqn:E; [lia|]. by rewrite Hok.
  - done.
  - intros status b. unfold handleTransfer_resume, authFetch_settle.
    destruct (status =? 401)%Z eqn:E.
    { unfold pulls_in_flight.
      by rewrite (proj1 (proj2 (proj2 (handleLogout_keeps st)))). }
    destruct (ok status); [|done].
    destruct b, (currentUser st); try done; intros _; repeat split; eauto; done.
Qed.

(** X13. [submitTrade] sends no order for an empty symbol or a quantity
    that is 0 or NaN, and it does send one for a negative quantity.  The
    price it sends is the typed price when that is neither 0 nor NaN, and
    [null] otherwise.  An accepted order starts one snapshot pull and one
    trades call; a refused one starts nothing. *)
Theorem submitTrade_orders (sym side : string) (qty price : float) (st : client) :
  (trade_order sym side qty price = None
     ↔ sym = "" ∨ ToBoolean_prim (PNum qty) = false)
  ∧ (sym ≠ "" → (qty <? 0)%float = true → is_Some (trade_order sym side qty price))
  ∧ (∀ o, trade_order sym side qty price = Some o →
       order_symbol o = sym ∧ order_side o = side ∧ order_quantity o = qty
       ∧ order_price o = if ToBoolean_prim (PNum price) then PNum price else PNull)
  ∧ (trade_order sym side qty price = None → submitTrade sym side qty price st = st)
  ∧ (∀ status b, ok status = true →
       inflight (submitTrade_resume (Response status b) st)
         = inflight st
           ++ [({| url := "/api/portfolio";
                   opts := authFetch_options (authToken st) no_options |}, AwPortfolio);
               ({| url := "/api/trades?limit=100";
                   opts := authFetch_options (authToken st) no_options |}, AwOther)])
  ∧ (∀ status b, ok status = false → status ≠ 401%Z →
       submitTrade_resume (Response status b) st = st).
Proof.
  assert (truthy sym = false ↔ sym = "") as Hsym
    by (unfold truthy; destruct (String.eqb_spec sym ""); simpl; split; congruence).
  split; [|split; [|split; [|split; [|split]]]].
  - unfold trade_order. rewrite <- Hsym.
    destruct (truthy sym), (ToBoolean_prim (PNum qty)); cbn [andb];
      split; try done; auto; intros [?|?]; done.
  - intros Hne Hneg. unfold trade_order.
    rewrite (negative_is_truthy qty Hneg).
    assert (truthy sym = true) as ->
      by (unfold truthy; destruct (String.eqb_spec sym ""); [done|reflexivity]).
    by eexists.
  - intros o. unfold trade_order.
    destruct (truthy sym && ToBoolean_prim (PNum qty)); [|done].
    intros [= <-]. cbn [order_symbol order_side order_quantity order_price].
    do 3 (split; [done|]). unfold js_or.
    destruct (ToBoolean_prim (PNum price)) eqn:E; [by rewrite E|done].
  - intros H. unfold submitTrade. by rewrite H.
  - intros status b Hok. unfold submitTrade_resume, authFetch_settle.
    destruct (status =? 401)%Z eqn:E.
    { apply Z.eqb_eq in E. subst status. done. }
    rewrite Hok. unfold loadPortfolio, authFetch. simpl.
    by rewrite <- (assoc_L (++)).
  - intros status b Hok Hs. unfold submitTrade_resume, authFetch_settle.
    destruct (status =? 401)%Z eqn:E; [lia|]. by rewrite Hok.
Qed.

(** ** Signing in *)

(** X17. [handleLogin] sends nothing when the user name or the password is
    empty; otherwise it posts the login call, which never carries the
    bearer token of a session already held.  A refused, failed or
    undecodable reply changes nothing, a 401 included: it does not log out.
    A good reply stores the token in memory and in [localStorage] and
    starts [initApp], whose call to [/api/auth/me] carries the new token. *)
Theorem handleLogin_flow (username password : string) (st : client) :
  (username = "" ∨ password = "" → handleLogin username password st = st)
  ∧ (username ≠ "" → password ≠ "" →
       ∃ rq, inflight (handleLogin username password st) = inflight st ++ [(rq, AwLogin)]
             ∧ url rq = "/api/auth/login"
             ∧ method (opts rq) = Some "POST"
             ∧ headers (opts rq) !! "Authorization" = None)
  ∧ resume AwLogin NetworkError st = st
  ∧ (∀ status b, ok status = false → resume AwLogin (Response status b) st = st)
  ∧ (∀ status, resume AwLogin (Response status BodyInvalid) st = st)
  ∧ (∀ status t, ok status = true → t ≠ "" →
       authToken (resume AwLogin (Response status (BodyToken t)) st) = t
       ∧ storedToken (resume AwLogin (Response status (BodyToken t)) st) = Some t
       ∧ ∃ rq, inflight (resume AwLogin (Response status (BodyToken t)) st)
                 = inflight st ++ [(rq, AwMe false)]
               ∧ url rq = "/api/auth/me"
               ∧ headers (opts rq) !! "Authorization" = Some ("Bearer " +:+ t)).
Proof.
  assert (∀ x, x ≠ "" → truthy x = true) as Hne
    by (intros x Hx; unfold truthy; destruct (String.eqb_spec x ""); [done|reflexivity]).
  split; [|split; [|split; [|split; [|split]]]].
  - unfold handleLogin. intros [-> | ->]; [done|]. by rewrite andb_false_r.
  - intros Hu Hp. unfold handleLogin. rewrite (Hne _ Hu), (Hne _ Hp). simpl.
    eexists. split; [done|]. by repeat split.
  - done.
  - intros status b Hok. simpl. by rewrite Hok.
  - intros status. simpl. by destruct (ok status).
  - intros status t Hok Ht. simpl. rewrite Hok. simpl.
    split; [done|]. split; [done|]. eexists. split; [done|]. split; [done|].
    simpl. by rewrite (Hne _ Ht), lookup_insert_eq.
Qed.

(** X9. Whatever the reply to [/api/auth/me] (a network failure, or any
    status with a body that is a JSON object or cannot be decoded),
    [initApp] ends in one of two states: signed in (the user recorded, the overlay hidden, a new socket
    held in [ws], one snapshot pull started, the token kept), which takes a
    2xx reply naming a non-empty user; or logged out (token, user and
    stored token cleared, the overlay shown, no socket constructed). *)
Theorem initApp_signed_in_or_out (page_load : bool) (r : outcome) (st : client) :
  (∃ status u,
      r = Response status (BodyUser u) ∧ ok status = true ∧ u ≠ ""
      ∧ currentUser (resume (AwMe page_load) r st) = Some u
      ∧ authToken (resume (AwMe page_load) r st) = authToken st
      ∧ storedToken (resume (AwMe page_load) r st) = storedToken st
      ∧ authOverlay (resume (AwMe page_load) r st) = false
      ∧ sockets (resume (AwMe page_load) r st) = sockets st ++ [CONNECTING]
      ∧ ws (resume (AwMe page_load) r st) = Some (length (sockets st))
      ∧ pulls_in_flight (resume (AwMe page_load) r st) = S (pulls_in_flight st))
  ∨ (authToken (resume (AwMe page_load) r st) = ""
     ∧ currentUser (resume (AwMe page_load) r st) = None
     ∧ storedToken (resume (AwMe page_load) r st) = None
     ∧ authOverlay (resume (AwMe page_load) r st) = true
     ∧ length (sockets (resume (AwMe page_load) r st)) = length (sockets st)
     ∧ inflight (resume (AwMe page_load) r st) = inflight st).
Proof.
  assert (∀ s : client,
            authToken (handleLogout s) = "" ∧ currentUser (handleLogout s) = None
            ∧ storedToken (handleLogout s) = None ∧ authOverlay (handleLogout s) = true
            ∧ length (sockets (handleLogout s)) = length (sockets s)
            ∧ inflight (handleLogout s) = inflight s) as Hout.
  { intros s. destruct (handleLogout_session s) as (? & ? & ? & ?).
    destruct (handleLogout_keeps s) as (_ & _ & ? & _).
    repeat split; try done.
    unfold handleLogout, close_ws. simpl.
    destruct (ws s) as [i|] eqn:E; simpl; rewrite ?E; [|done].
    unfold close_socket. destruct (sockets s !! i) as [[]|]; by rewrite ?length_insert. }
  assert (∀ s : client,
            authToken (handleLogout (handleLogout s)) = ""
            ∧ currentUser (handleLogout (handleLogout s)) = None
            ∧ storedToken (handleLogout (handleLogout s)) = None
            ∧ authOverlay (handleLogout (handleLogout s)) = true
            ∧ length (sockets (handleLogout (handleLogout s))) = length (sockets s)
            ∧ inflight (handleLogout (handleLogout s)) = inflight s) as Hout2.
  { intros s. rewrite handleLogout_again. apply Hout. }
  destruct r as [|status b].
  { right. simpl. destruct page_load; apply Hout. }
  simpl. unfold authFetch_settle.
  destruct (status =? 401)%Z eqn:E401.
  { right. destruct page_load; apply Hout2. }
  destruct b as [| |t|u|d|fr]; try (right; destruct page_load; apply Hout).
  destruct (ok status) eqn:Hok; [|right; destruct page_load; apply Hout].
  unfold truthy. destruct (String.eqb_spec u "") as [->|Hu]; simpl;
    [right; destruct page_load; apply Hout|].
  left. exists status, u. do 3 (split; [done|]).
  destruct page_load; simpl; repeat split;
    unfold pulls_in_flight; simpl;
    rewrite !List.filter_app, !length_app; simpl; lia.
Qed.

(** ** Snapshot pulls that fail, and the reset *)

(** X11. A snapshot pull that fails on the network, or whose reply cannot be
    decoded, leaves the snapshot as it was; so does a 401.  A reply that
    decodes to an error object replaces the snapshot whatever its status:
    the positions are gone and the projection has nothing to work on. *)
Theorem loadPortfolio_failures (st : client) :
  resume AwPortfolio NetworkError st = st
  ∧ (∀ status, status ≠ 401%Z →
       resume AwPortfolio (Response status BodyInvalid) st = st)
  ∧ (∀ b, portfolioData (resume AwPortfolio (Response 401 b) st) = portfolioData st)
  ∧ (∀ status, status ≠ 401%Z →
       portfolioData (resume AwPortfolio (Response status BodyJson) st) = empty_portfolio
       ∧ ∀ c, refreshPositionPrices c
                (portfolioData (resume AwPortfolio (Response status BodyJson) st))
              = empty_portfolio).
Proof.
  split; [done|]. split; [|split].
  - intros status Hs. simpl. unfold authFetch_settle.
    by destruct (status =? 401)%Z eqn:E; [lia|].
  - intros b. simpl. apply handleLogout_keeps.
  - intros status Hs. simpl. unfold authFetch_settle.
    by destruct (status =? 401)%Z eqn:E; [lia|].
Qed.

(** X10. [resetPortfolio] does not look at the status of the reset call: any
    reply but a 401, a server error included, empties the snapshot and
    starts one pull; until that pull settles the projection changes
    nothing.  A 401 or a network failure keeps the snapshot and starts no
    pull. *)
Theorem resetPortfolio_clears (st : client) :
  (∀ status b, status ≠ 401%Z →
     portfolioData (resume AwReset (Response status b) st) = empty_portfolio
     ∧ pulls_in_flight (resume AwReset (Response status b) st) = S (pulls_in_flight st)
     ∧ priceCache (resume AwReset (Response status b) st) = priceCache st
     ∧ ∀ c, refreshPositionPrices c (portfolioData (resume AwReset (Response status b) st))
            = empty_portfolio)
  ∧ resume AwReset NetworkError st = st
  ∧ (∀ b, portfolioData (resume AwReset (Response 401 b) st) = portfolioData st
          ∧ pulls_in_flight (resume AwReset (Response 401 b) st) = pulls_in_flight st).
Proof.
  split; [|split; [done|]].
  - intros status b Hs. simpl. unfold authFetch_settle.
    destruct (status =? 401)%Z eqn:E; [lia|]. simpl.
    repeat split. unfold pulls_in_flight. simpl.
    rewrite List.filter_app, length_app. simpl. lia.
  - intros b. simpl. unfold pulls_in_flight.
    destruct (handleLogout_keeps st) as (_ & _ & -> & _ & -> & _). done.
Qed.

(** ** Invariants of the event loop *)

Lemma count_app {A : Type} (P : A → bool) (l k : list A) :
  count P (l ++ k) = count P l + count P k.
Proof. unfold count. by rewrite List.filter_app, length_app. Qed.

Lemma count_delete {A : Type} (P : A → bool) (l : list A) (i : nat) (x : A) :
  l !! i = Some x → count P l = count P (delete i l) + (if P x then 1 else 0).
Proof.
  revert i. induction l as [|y l IH]; intros [|i] Hi; try done.
  - injection Hi as ->. unfold count. simpl. destruct (P x); simpl; lia.
  - specialize (IH i Hi). unfold count in *. simpl.
    destruct (P y); simpl; lia.
Qed.

Lemma count_insert {A : Type} (P : A → bool) (l : list A) (i : nat) (x y : A) :
  l !! i = Some x → P y = P x → count P (<[i := y]> l) = count P l.
Proof.
  revert i. induction l as [|z l IH]; intros [|i] Hi Hxy; try done.
  - injection Hi as ->. unfold count. simpl. rewrite Hxy. by destruct (P x).
  - specialize (IH i Hi Hxy). unfold count in *. simpl.
    destruct (P z); simpl; lia.
Qed.

Lemma handleLogout_ws (st : client) : ws (handleLogout st) = ws st.
Proof. apply handleLogout_keeps. Qed.

Lemma handleLogout_timers (st : client) : timers (handleLogout st) = timers st.
Proof. apply handleLogout_keeps. Qed.

Lemma handleLogout_inflight (st : client) : inflight (handleLogout st) = inflight st.
Proof. apply handleLogout_keeps. Qed.

Lemma handleLogout_stored (st : client) : storedToken (handleLogout st) = None.
Proof. apply handleLogout_session. Qed.

Lemma close_socket_length (i : nat) (ss : list ready_state) :
  length (close_socket i ss) = length ss.
Proof. unfold close_socket. destruct (ss !! i) as [[]|]; by rewrite ?length_insert. Qed.

Lemma close_ws_shape (st : client) :
  ws (close_ws st) = ws st ∧ length (sockets (close_ws st)) = length (sockets st).
Proof.
  unfold close_ws. destruct (ws st) as [i|] eqn:E; simpl; rewrite ?E; [|done].
  by rewrite close_socket_length.
Qed.

Lemma handleLogout_length (st : client) :
  length (sockets (handleLogout st)) = length (sockets st).
Proof. unfold handleLogout. by rewrite (proj2 (close_ws_shape _)). Qed.

Lemma ws_latest_connect (st : client) : ws_latest (connectWebSocket st).
Proof.
  unfold ws_latest, connectWebSocket. simpl.
  rewrite length_app. simpl. by rewrite Nat.add_1_r.
Qed.

Lemma ws_latest_same (st st' : client) :
  ws st' = ws st → length (sockets st') = length (sockets st) →
  ws_latest st → ws_latest st'.
Proof. unfold ws_latest. by intros -> ->. Qed.

Lemma resume_sockets (k : awaiting) (r : outcome) (st : client) :
  (ws (resume k r st) = ws st
   ∧ length (sockets (resume k r st)) = length (sockets st))
  ∨ (ws (resume k r st) = Some (length (sockets st))
     ∧ sockets (resume k r st) = sockets st ++ [CONNECTING]).
Proof.
  settled k r; handlers; cases;
    rewrite ?handleLogout_ws, ?handleLogout_length; simpl;
    rewrite ?handleLogout_ws, ?handleLogout_length; auto.
Qed.

Lemma ws_latest_resume (k : awaiting) (r : outcome) (st : client) :
  ws_latest st → ws_latest (resume k r st).
Proof.
  intros H. destruct (resume_sockets k r st) as [[Hw Hl]|[Hw Hs]].
  - by eapply ws_latest_same.
  - unfold ws_latest. rewrite Hw, Hs, length_app. simpl. by rewrite Nat.add_1_r.
Qed.

Lemma ws_latest_step (st st' : client) (e : event) :
  step st e = Some st' → ws_latest st → ws_latest st'.
Proof.
  destruct e; simpl.
  - destruct (0 <=? dt)%Z; intros [= <-]; done.
  - destruct (timers st !! k) as [t|]; simpl; [|done].
    destruct (due t <=? now st)%Z; [|done]. intros [= <-] H.
    destruct (run t); simpl; [apply ws_latest_connect| |].
    + unfold heartbeat. simpl. destruct (ws st) as [i|]; [|done].
      by destruct (sockets st !! i) as [[]|].
    + unfold reconcile. simpl. by destruct (truthy (authToken st)).
  - destruct (sockets st !! i) as [[]|]; intros [= <-]; try done.
    unfold ws_latest. simpl. by rewrite length_insert.
  - destruct (sockets st !! i) as [[]|]; intros [= <-]; try done.
    intros H. unfold onmessage. destruct m; try done.
    by destruct (updateTicker _).
  - destruct (sockets st !! i) as [[]|]; intros [= <-]; try done;
      intros H; eapply ws_latest_same; try exact H; apply close_ws_shape.
  - destruct (sockets st !! i) as [[]|]; intros [= <-]; try done;
      unfold ws_latest; simpl; by rewrite length_insert.
  - destruct (inflight st !! k) as [[rq aw]|]; simpl; [|done].
    intros [= <-] H. by apply ws_latest_resume.
  - intros [= <-]. unfold handleLogin. by destruct (_ && _).
  - intros [= <-] H. eapply ws_latest_same; try exact H;
      [apply handleLogout_ws | apply handleLogout_length].
  - by intros [= <-].
  - by intros [= <-].
  - by intros [= <-].
Qed.

(** X6. From the page load on, the global [ws] always holds the socket
    constructed last (no socket while none was constructed): the sockets
    constructed before it are out of reach of [ws.close()], in [onerror]
    and in [handleLogout] alike. *)
Theorem ws_holds_latest_socket
    (stored : option string) (t0 : Z) (es : list event) (st : client) :
  steps (DOMContentLoaded (fresh stored t0)) es = Some st →
  ws_latest st
  ∧ ∀ j, S j < length (sockets st) →
      sockets (handleLogout st) !! j = sockets st !! j
      ∧ sockets (onerror st) !! j = sockets st !! j.
Proof.
  intros Hrun.
  assert (ws_latest st) as Hws.
  { assert (ws_latest (DOMContentLoaded (fresh stored t0))) as H0.
    { unfold DOMContentLoaded, after_auto_login. simpl.
      by destruct (truthy (default "" stored)). }
    revert Hrun H0. generalize (DOMContentLoaded (fresh stored t0)).
    induction es as [|e es IH]; intros s; simpl.
    - by intros [= <-].
    - destruct (step s e) as [s1|] eqn:E; simpl; [|done].
      intros Hrun H0. apply (IH s1 Hrun). by eapply ws_latest_step. }
  split; [done|]. intros j Hj.
  assert (∀ s : client, ws s = ws st → sockets s = sockets st →
            sockets (close_ws s) !! j = sockets st !! j) as Hclose.
  { intros s Hw Hs. unfold close_ws. rewrite Hw.
    unfold ws_latest in Hws. rewrite Hws.
    destruct (length (sockets st)) as [|n] eqn:El; simpl; [by rewrite Hs|].
    rewrite Hs. unfold close_socket.
    destruct (sockets st !! n) as [[]|]; try done;
      rewrite list_lookup_insert_ne; (done || lia). }
  split; [|by apply Hclose].
  unfold handleLogout. by apply Hclose.
Qed.

Lemma steps_invariant (P : client → Prop) :
  (∀ st st' e, step st e = Some st' → P st → P st') →
  ∀ es st st', steps st es = Some st' → P st → P st'.
Proof.
  intros Hstep es. induction es as [|e es IH]; intros st st'; simpl.
  - by intros [= <-].
  - destruct (step st e) as [s1|] eqn:E; simpl; [|done].
    intros Hrun H0. apply (IH s1 st' Hrun). by eapply Hstep.
Qed.

Lemma session_persisted_same (st st' : client) :
  authToken st' = authToken st → storedToken st' = storedToken st →
  session_persisted st → session_persisted st'.
Proof. unfold session_persisted. by intros -> ->. Qed.

Lemma session_persisted_logout (st : client) : session_persisted (handleLogout st).
Proof. left. apply handleLogout_token. Qed.

Lemma session_persisted_resume (k : awaiting) (r : outcome) (st : client) :
  session_persisted st → session_persisted (resume k r st).
Proof.
  unfold session_persisted. intros H.
  settled k r; handlers; cases;
    rewrite ?handleLogout_token, ?handleLogout_stored; simpl;
    rewrite ?handleLogout_token, ?handleLogout_stored; auto.
Qed.

Lemma session_persisted_step (st st' : client) (e : event) :
  step st e = Some st' → session_persisted st → session_persisted st'.
Proof.
  destruct e; simpl.
  - destruct (0 <=? dt)%Z; intros [= <-]; done.
  - destruct (timers st !! k) as [t|]; simpl; [|done].
    destruct (due t <=? now st)%Z; [|done]. intros [= <-] H.
    unfold session_persisted. handlers. by cases.
  - destruct (sockets st !! i) as [[]|]; intros [= <-]; done.
  - destruct (sockets st !! i) as [[]|]; intros [= <-]; try done.
    intros H. unfold session_persisted. handlers. by cases.
  - destruct (sockets st !! i) as [[]|]; intros [= <-]; try done;
      intros H; unfold session_persisted, onerror, close_ws; by destruct (ws st).
  - destruct (sockets st !! i) as [[]|]; intros [= <-]; done.
  - destruct (inflight st !! k) as [[rq aw]|]; simpl; [|done].
    intros [= <-] H. by apply session_persisted_resume.
  - intros [= <-]. unfold handleLogin. by destruct (_ && _).
  - intros [= <-] _. apply session_persisted_logout.
  - by intros [= <-].
  - by intros [= <-].
  - by intros [= <-].
Qed.

(** X8. From the page load on, a token held in memory is the token in
    [localStorage]: whenever [authToken] is not empty, the stored token
    equals it. *)
Theorem token_is_persisted
    (stored : option string) (t0 : Z) (es : list event) (st : client) :
  steps (DOMContentLoaded (fresh stored t0)) es = Some st →
  authToken st ≠ "" → storedToken st = Some (authToken st).
Proof.
  intros Hrun.
  assert (session_persisted st) as [H|H].
  { eapply (steps_invariant session_persisted); [apply session_persisted_step|exact Hrun|].
    unfold DOMContentLoaded, after_auto_login, session_persisted. simpl.
    destruct stored as [t|]; simpl; [|by left].
    destruct (truthy t); simpl; by right. }
  - done.
  - done.
Qed.

Lemma fire_timers (f : callback) (st : client) : timers (fire f st) = timers st.
Proof. handlers. by cases. Qed.

Lemma fire_boot (f : callback) (st : client) :
  count is_boot (inflight (fire f st)) = count is_boot (inflight st).
Proof. handlers. cases; simpl; rewrite ?count_app; unfold count; simpl; lia. Qed.

Lemma onmessage_timers (m : message) (st : client) :
  timers (onmessage m st) = timers st.
Proof. handlers. by cases. Qed.

Lemma onmessage_boot (m : message) (st : client) :
  count is_boot (inflight (onmessage m st)) = count is_boot (inflight st).
Proof. handlers. cases; simpl; rewrite ?count_app; unfold count; simpl; lia. Qed.

(** A settled fetch registers at most one timer: the reconciliation
    interval. *)
Lemma resume_timers (k : awaiting) (r : outcome) (st : client) :
  timers (resume k r st) = timers st
  ∨ timers (resume k r st)
    = timers st ++ [{| due := now st + 60000; period := Some 60000%Z; run := Reconcile |}].
Proof.
  settled k r; handlers; cases;
    rewrite ?handleLogout_timers, ?handleLogout_now; simpl;
    rewrite ?handleLogout_timers, ?handleLogout_now; auto.
Qed.

(** The interval is registered exactly by the fetches of the page-load
    handler, unless such a fetch is followed by another one. *)
Lemma resume_boot (k : awaiting) (r : outcome) (rq : request) (st : client) :
  count is_reconcile (timers (resume k r st)) + count is_boot (inflight (resume k r st))
  = count is_reconcile (timers st) + count is_boot (inflight st)
    + (if is_boot (rq, k) then 1 else 0).
Proof.
  settled k r; handlers; cases;
    rewrite ?handleLogout_timers, ?handleLogout_inflight; simpl;
    rewrite ?handleLogout_timers, ?handleLogout_inflight, ?count_app;
    unfold count; simpl; lia.
Qed.

Lemma step_timers (st st' : client) (e : event) :
  step st e = Some st' → timers_wf st →
  timers_wf st'
  ∧ count is_heartbeat (timers st')
    = count is_heartbeat (timers st) + (if is_handshake e then 1 else 0)
  ∧ count is_reconcile (timers st') + count is_boot (inflight st')
    = count is_reconcile (timers st) + count is_boot (inflight st).
Proof.
  unfold timers_wf. destruct e; simpl.
  - destruct (0 <=? dt)%Z; intros [= <-] H; simpl. repeat split; (done || lia).
  - destruct (timers st !! k) as [t|] eqn:Ek; simpl; [|done].
    destruct (due t <=? now st)%Z; [|done]. intros [= <-] H.
    rewrite fire_timers, fire_boot. simpl.
    pose proof (Forall_lookup_1 _ _ _ _ H Ek) as Ht. unfold timer_wf in Ht.
    destruct (period t) as [ms|] eqn:Ep.
    + split; [|split].
      * apply Forall_insert; [done|]. unfold timer_wf. simpl. by rewrite <- Ht.
      * rewrite (count_insert is_heartbeat _ _ t); [lia|done|done].
      * rewrite (count_insert is_reconcile _ _ t); [lia|done|done].
    + assert (run t = ConnectWebSocket) as Hr by (by destruct (run t)).
      split; [|split].
      * by apply Forall_delete.
      * rewrite (count_delete is_heartbeat _ _ _ Ek). unfold is_heartbeat.
        rewrite Hr. lia.
      * rewrite (count_delete is_reconcile (timers st) _ _ Ek). unfold is_reconcile.
        rewrite Hr. lia.
  - destruct (sockets st !! i) as [[]|]; intros [= <-] H; simpl.
    split; [|split].
    + apply Forall_app. split; [done|]. by repeat constructor.
    + rewrite count_app. unfold count. simpl. lia.
    + rewrite count_app. unfold count. simpl. lia.
  - destruct (sockets st !! i) as [[]|]; intros [= <-] H.
    rewrite onmessage_timers, onmessage_boot. repeat split; (done || lia).
  - destruct (sockets st !! i) as [[]|]; intros [= <-] H;
      unfold onerror, close_ws; destruct (ws st); simpl;
      repeat split; (done || lia).
  - destruct (sockets st !! i) as [[]|]; intros [= <-] H; simpl.
    all: split; [|split];
      [ apply Forall_app; split; [done|]; by repeat constructor
      | rewrite count_app; unfold count; simpl; lia
      | rewrite count_app; unfold count; simpl; lia ].
  - destruct (inflight st !! k) as [[rq aw]|] eqn:Ek; simpl; [|done].
    intros [= <-] H.
    pose proof (resume_boot aw r rq (set_inflight (delete k (inflight st)) st)) as Hb.
    pose proof (count_delete is_boot _ _ _ Ek) as Hd.
    simpl in Hb.
    assert (is_boot (rq, aw) = is_boot (rq, aw)) as _ by done.
    destruct (resume_timers aw r (set_inflight (delete k (inflight st)) st)) as [E|E];
      simpl in E.
    + rewrite E in *. repeat split; [done|lia|lia].
    + split; [|split].
      * rewrite E. apply Forall_app. split; [done|]. by repeat constructor.
      * rewrite E, count_app. unfold count. simpl. lia.
      * lia.
  - intros [= <-] H. unfold handleLogin. destruct (_ && _); simpl;
      rewrite ?count_app; unfold count; simpl; repeat split; (done || lia).
  - intros [= <-] H. rewrite handleLogout_timers, handleLogout_inflight.
    repeat split; (done || lia).
  - intros [= <-] H. simpl. rewrite count_app. unfold count. simpl.
    repeat split; (done || lia).
  - intros [= <-] H. simpl. rewrite count_app. unfold count. simpl.
    repeat split; (done || lia).
  - intros [= <-] H. simpl. rewrite count_app. unfold count. simpl.
    repeat split; (done || lia).
Qed.

Lemma steps_timers (es : list event) (st st' : client) :
  steps st es = Some st' → timers_wf st →
  timers_wf st'
  ∧ count is_heartbeat (timers st')
    = count is_heartbeat (timers st) + count is_handshake es
  ∧ count is_reconcile (timers st') + count is_boot (inflight st')
    = count is_reconcile (timers st) + count is_boot (inflight st).
Proof.
  revert st. induction es as [|e es IH]; intros st; simpl.
  - intros [= <-] H. unfold count. simpl. repeat split; (done || lia).
  - destruct (step st e) as [s1|] eqn:E; simpl; [|done].
    intros Hrun H0.
    destruct (step_timers _ _ _ E H0) as (Hwf & Hh & Hr).
    destruct (IH s1 Hrun Hwf) as (Hwf' & Hh' & Hr').
    split; [done|]. split; [|lia].
    rewrite Hh', Hh. unfold count. simpl. destruct (is_handshake e); simpl; lia.
Qed.

Lemma page_load_timers (stored : option string) (t0 : Z) :
  timers (DOMContentLoaded (fresh stored t0)) = []
  ∧ count is_boot (inflight (DOMContentLoaded (fresh stored t0))) = 1.
Proof.
  unfold DOMContentLoaded, after_auto_login. simpl.
  by destruct (truthy (default "" stored)).
Qed.

(** X7. Every handshake registers one more ping interval and no step of the
    page ever removes one: after a page load the number of ping intervals
    is the number of handshakes so far, and each of them repeats every
    30 s. *)
Theorem heartbeats_accumulate
    (stored : option string) (t0 : Z) (es : list event) (st : client) :
  steps (DOMContentLoaded (fresh stored t0)) es = Some st →
  count is_heartbeat (timers st) = count is_handshake es
  ∧ ∀ t, t ∈ timers st → run t = Heartbeat → period t = Some 30000%Z.
Proof.
  intros Hrun. destruct (page_load_timers stored t0) as [Ht _].
  destruct (steps_timers es _ _ Hrun) as (Hwf & Hh & _).
  { unfold timers_wf. rewrite Ht. constructor. }
  rewrite Ht in Hh. split; [exact Hh|].
  intros t Hin Hr. unfold timers_wf in Hwf.
  rewrite Forall_forall in Hwf. specialize (Hwf t Hin).
  unfold timer_wf in Hwf. by rewrite Hr in Hwf.
Qed.

(** X18. The reconciliation interval is registered once per page load,
    whatever the replies: at every moment either the page-load handler
    still waits for one fetch and no interval exists, or exactly one
    interval exists; it repeats every 60 s and is never removed. *)
Theorem reconciliation_registered_once
    (stored : option string) (t0 : Z) (es : list event) (st : client) :
  steps (DOMContentLoaded (fresh stored t0)) es = Some st →
  count is_reconcile (timers st) + count is_boot (inflight st) = 1
  ∧ ∀ t, t ∈ timers st → run t = Reconcile → period t = Some 60000%Z.
Proof.
  intros Hrun. destruct (page_load_timers stored t0) as [Ht Hb].
  destruct (steps_timers es _ _ Hrun) as (Hwf & _ & Hr).
  { unfold timers_wf. rewrite Ht. constructor. }
  rewrite Ht, Hb in Hr. split; [exact Hr|].
  intros t Hin Hrun'. unfold timers_wf in Hwf.
  rewrite Forall_forall in Hwf. specialize (Hwf t Hin).
  unfold timer_wf in Hwf. by rewrite Hrun' in Hwf.
Qed.

(** ** The cache only grows *)

Lemma handleLogout_cache (st : client) : priceCache (handleLogout st) = priceCache st.
Proof. apply handleLogout_keeps. Qed.

Lemma Object_assign_dom (c : cache) (u : option cache) :
  dom c ⊆ dom (Object_assign c u).
Proof.
  destruct u as [u|]; [|done].
  rewrite Object_assign_union, dom_union. apply union_subseteq_r.
Qed.

Lemma seed_cache_dom (fr : list (string * jsval)) (c : cache) :
  dom c ⊆ dom (seed_cache fr c).
Proof.
  revert c. induction fr as [|[k v] fr IH]; intros c; [done|].
  change (seed_cache ((k, v) :: fr) c)
    with (seed_cache fr (if truthy k then <[k := v]> c else c)).
  etrans; [|apply IH]. destruct (truthy k); [|done].
  rewrite dom_insert. apply union_subseteq_r.
Qed.

Lemma resume_cache (k : awaiting) (r : outcome) (st : client) :
  priceCache (resume k r st) = priceCache st
  ∨ ∃ fr, priceCache (resume k r st) = seed_cache fr (priceCache st).
Proof.
  settled k r; handlers; cases;
    rewrite ?handleLogout_cache; simpl; rewrite ?handleLogout_cache; eauto.
Qed.

Lemma step_cache (st st' : client) (e : event) :
  step st e = Some st' → dom (priceCache st) ⊆ dom (priceCache st').
Proof.
  destruct e; simpl.
  - destruct (0 <=? dt)%Z; by intros [= <-].
  - destruct (timers st !! k) as [t|]; simpl; [|done].
    destruct (due t <=? now st)%Z; [|done]. intros [= <-].
    handlers. by cases.
  - cases; intros [= <-]; done.
  - destruct (sockets st !! i) as [[]|]; try done. intros [= <-].
    destruct m; simpl; try done.
    destruct (updateTicker _); simpl; apply Object_assign_dom.
  - destruct (sockets st !! i) as [[]|]; try done; intros [= <-];
      unfold onerror, close_ws; by destruct (ws st).
  - cases; intros [= <-]; done.
  - destruct (inflight st !! k) as [f|]; simpl; [|done]. intros [= <-].
    destruct (resume_cache f.2 r (set_inflight (delete k (inflight st)) st))
      as [-> | [fr ->]]; simpl; [done|apply seed_cache_dom].
  - intros [= <-]. handlers. by cases.
  - intros [= <-]. by rewrite handleLogout_cache.
  - by intros [= <-].
  - by intros [= <-].
  - by intros [= <-].
Qed.

(** X19. The page never forgets a symbol: no event of a run, a logout
    included, removes a key from the price cache, so a symbol quoted once
    stays in the ticker until the page is reloaded. *)
Theorem priceCache_never_forgets (st st' : client) (es : list event) :
  steps st es = Some st' → dom (priceCache st) ⊆ dom (priceCache st').
Proof.
  intros Hrun.
  apply (steps_invariant (λ s, dom (priceCache st) ⊆ dom (priceCache s)))
    with (es := es) (st := st); [|exact Hrun|done].
  intros s s' e Hstep Hs. etrans; [exact Hs|]. by eapply step_cache.
Qed.

End Client.

(** * Concrete runs *)

(** C1, counterexample: shares held at an average cost of 0 and a cached
    price of 160; the projected percentage is +Infinity, not 0. *)
Lemma zero_avg_cost_gives_infinity :
  unrealized_pnl_pct
    <$> position_at (refreshPositionPrices no_string_prices (bare_quote 160)
                       (snapshot [aapl 0 0])) 0
    = Some infinity
  ∧ is_finite infinity = false
  ∧ is_zero infinity = false.
Proof. by vm_compute. Qed.

Lemma refreshPositionPrices_zero_avg_cost_witness :
  ∃ p', position_at (refreshPositionPrices no_string_prices (bare_quote 160)
                       (snapshot [aapl 0 0])) 0 = Some p'
        ∧ unrealized_pnl_pct p'
            = ((ToNumber no_string_prices (PNum 160) - avg_cost (aapl 0 0))
               / avg_cost (aapl 0 0) * 100)%float
        ∧ is_finite (unrealized_pnl_pct p') = false
        ∧ is_zero (unrealized_pnl_pct p') = false.
Proof.
  apply (refreshPositionPrices_zero_avg_cost no_string_prices (bare_quote 160)
           (snapshot [aapl 0 0]) 0 (aapl 0 0) (JPrim (PNum 160)) (PNum 160));
    reflexivity.
Defined.

(** C5, an instance: three merges, the last one wins for AAPL. *)
Lemma priceCache_last_write_wins_witness :
  merge_all ∅ [bare_quote 1; {["MSFT" := JPrim (PNum 2)]}; bare_quote 3] !! "AAPL"
    = Some (JPrim (PNum 3))
  ∧ cache_get (merge_all ∅ [bare_quote 1; {["MSFT" := JPrim (PNum 2)]}; bare_quote 3]) "AAPL"
    = JPrim (PNum 3).
Proof.
  apply (proj1 (priceCache_last_write_wins no_string_prices
                  [bare_quote 1; {["MSFT" := JPrim (PNum 2)]}; bare_quote 3] "AAPL")
           [bare_quote 1; {["MSFT" := JPrim (PNum 2)]}] (bare_quote 3) [] (JPrim (PNum 3)));
    [reflexivity | reflexivity | constructor].
Defined.

(** C6, counterexample: the cache holds the bare number 0 for AAPL; the
    position keeps the server's 155 and 1550 instead of taking the cached
    price. *)
Lemma zero_quote_is_not_applied :
  cache_get (bare_quote 0) "AAPL" = JPrim (PNum 0)
  ∧ position_at (refreshPositionPrices no_string_prices (bare_quote 0)
                   (snapshot [aapl_at_150])) 0
    = Some aapl_at_150
  ∧ current_price aapl_at_150 = PNum 155
  ∧ market_value aapl_at_150 = 1550%float
  ∧ (0 * 10 =? 1550)%float = false.
Proof. by vm_compute. Qed.

Lemma refreshPositionPrices_marks_witness :
  ∃ p', position_at (refreshPositionPrices no_string_prices (bare_quote 160)
                       (snapshot [aapl_at_150])) 0 = Some p'
        ∧ current_price p' = PNum 160
        ∧ unrealized_pnl p' = 100%float
        ∧ market_value p' = 1600%float
        ∧ unrealized_pnl_pct p' = 0x1.aaaaaaaaaaaabp+2%float.
Proof.
  destruct (refreshPositionPrices_marks no_string_prices (bare_quote 160)
              (snapshot [aapl_at_150]) 0
              aapl_at_150 (JPrim (PNum 160)) (PNum 160)
              eq_refl eq_refl eq_refl eq_refl)
    as (p' & Hp & Hc & _ & _ & _ & Hs).
  destruct (Hs eq_refl eq_refl eq_refl eq_refl) as (H1 & H2 & H3 & _).
  exists p'. by repeat split.
Defined.

(** C7, an instance: a holding the cache does not mention stays. *)
Lemma refreshPositionPrices_frame_witness :
  ∃ p', position_at (refreshPositionPrices no_string_prices ∅
                       (snapshot [aapl_at_150])) 0 = Some p'
        ∧ p' = aapl_at_150.
Proof.
  destruct (refreshPositionPrices_frame no_string_prices ∅
              (snapshot [aapl_at_150]))
    as (_ & _ & _ & _ & _ & _ & _ & _ & _ & H).
  destruct (H 0 aapl_at_150 eq_refl)
    as (p' & Hp & _ & _ & _ & _ & Hsame).
  exists p'. split; [exact Hp | by apply Hsame].
Defined.

(** C9, counterexample: a [price_update] carrying the record
    [{current: 0, change_pct: 0}] for AAPL is a pushed quote of price 0; the
    handler overwrites the position's marks with it. *)
Lemma pushed_zero_record_overwrites :
  quote_price (cache_get (record_quote 0) "AAPL") = Some (PNum 0)
  ∧ position_at
      (portfolioData
         (onmessage no_string_prices (PriceUpdate (Some (record_quote 0)))
            (set_data ∅ (snapshot [aapl_at_150]) (fresh None 0)))) 0
    = Some {| symbol := "AAPL"; quantity := 10; avg_cost := 150;
              current_price := PNum 0; market_value := 0;
              unrealized_pnl := (-1500)%float; unrealized_pnl_pct := (-100)%float;
              weight_pct := 100 |}.
Proof. by vm_compute. Qed.

Lemma refreshPositionPrices_falsy_entry_witness :
  refreshPositionPrices no_string_prices (bare_quote 0) (snapshot [aapl_at_150])
    = refreshPositionPrices no_string_prices (delete "AAPL" (bare_quote 0))
        (snapshot [aapl_at_150]).
Proof.
  apply (refreshPositionPrices_falsy_entry no_string_prices (bare_quote 0)
           (snapshot [aapl_at_150]) "AAPL").
  reflexivity.
Defined.

(** C10, counterexample: the same price 0 in the two shapes; the projection
    skips the bare number and applies the record. *)
Lemma zero_price_shapes_differ :
  quote_price (cache_get (bare_quote 0) "AAPL") = quote_price (cache_get (record_quote 0) "AAPL")
  ∧ current_price
      <$> position_at (refreshPositionPrices no_string_prices (bare_quote 0)
                         (snapshot [aapl_at_150])) 0
    = Some (PNum 155)
  ∧ current_price
      <$> position_at (refreshPositionPrices no_string_prices (record_quote 0)
                         (snapshot [aapl_at_150])) 0
    = Some (PNum 0).
Proof. by vm_compute. Qed.

Lemma consumers_either_shape_witness :
  refreshPositionPrices no_string_prices (<["AAPL" := JPrim (PNum 160)]> ∅)
    (snapshot [aapl_at_150])
  = refreshPositionPrices no_string_prices
      (<["AAPL" := JRecord {["current" := PNum 160; "change_pct" := PNum 0]}]> ∅)
      (snapshot [aapl_at_150]).
Proof.
  apply (consumers_either_shape no_string_prices 160
           {["current" := PNum 160; "change_pct" := PNum 0]});
    vm_compute; reflexivity.
Defined.

(** C2, counterexample: the user logs out of a signed-in client.  The
    closure of the socket leaves the heartbeat interval registered and
    schedules a reconnect; once 5 s have passed the reconnect runs and the
    feed is open again, with no token held, and a second heartbeat interval
    is registered beside the first. *)
Lemma logout_is_followed_by_reconnect :
  (λ st, (authToken st, sockets st, run <$> timers st))
    <$> steps no_string_prices loaded_page (signed_in ++ [LogoutClick; SocketClose 0])
    = Some ("", [CLOSED], [Reconcile; Heartbeat; ConnectWebSocket])
  ∧ (λ st, (authToken st, sockets st, statusLabel st, run <$> timers st))
      <$> steps no_string_prices loaded_page
            (signed_in ++ [LogoutClick; SocketClose 0; Advance 5000; Fire 2; SocketOpen 1])
      = Some ("", [CLOSED; OPEN], Connected, [Reconcile; Heartbeat; Heartbeat]).
Proof. by vm_compute. Qed.

Lemma socket_close_schedules_reconnect_witness :
  ∃ st', step no_string_prices (feed_open no_string_prices) (SocketClose 0) = Some st'
         ∧ statusLabel st' = Disconnected
         ∧ timers st' = timers (feed_open no_string_prices)
                        ++ [{| due := now (feed_open no_string_prices) + 5000; period := None;
                               run := ConnectWebSocket |}].
Proof.
  destruct (socket_close_schedules_reconnect no_string_prices (feed_open no_string_prices) 0 OPEN)
    as (st' & Hstep & Hlabel & _ & Htimers & _); [by vm_compute | discriminate |].
  exists st'. by repeat split.
Defined.


(** C4, counterexample: two ticks of the reconciliation interval with no
    reply in between leave two snapshot pulls in flight. *)
Lemma two_pulls_in_flight :
  (λ st, (pulls_in_flight st, snd <$> inflight st))
    <$> steps no_string_prices loaded_page
          (signed_in ++ first_replies ++ [Advance 60000; Fire 0; Advance 60000; Fire 0])
    = Some (2, [AwPortfolio; AwPortfolio]).
Proof. by vm_compute. Qed.

Lemma reconcile_every_tick_witness :
  pulls_in_flight (reconcile (feed_open no_string_prices)) = S (pulls_in_flight (feed_open no_string_prices)).
Proof.
  apply (proj1 (reconcile_every_tick no_string_prices (feed_open no_string_prices))).
  by vm_compute.
Defined.

(** ** Runs for the further properties *)

(** X6, an instance: after the reconnect [ws] is the second socket. *)
Lemma ws_holds_latest_socket_witness :
  ∃ st, steps no_string_prices (DOMContentLoaded (fresh (Some "tok") 0)) reconnected = Some st
        ∧ ws_latest st.
Proof.
  destruct (steps no_string_prices (DOMContentLoaded (fresh (Some "tok") 0)) reconnected)
    as [st|] eqn:Hrun; [|by vm_compute in Hrun].
  exists st. split; [done|].
  exact (proj1 (ws_holds_latest_socket no_string_prices (Some "tok") 0 reconnected st Hrun)).
Defined.

(** X7, an instance: two handshakes, two ping intervals. *)
Lemma heartbeats_accumulate_witness :
  ∃ st, steps no_string_prices (DOMContentLoaded (fresh (Some "tok") 0)) reconnected = Some st
        ∧ count is_heartbeat (timers st) = 2.
Proof.
  destruct (steps no_string_prices (DOMContentLoaded (fresh (Some "tok") 0)) reconnected)
    as [st|] eqn:Hrun; [|by vm_compute in Hrun].
  exists st. split; [done|].
  exact (proj1 (heartbeats_accumulate no_string_prices (Some "tok") 0 reconnected st Hrun)).
Defined.

(** X8, an instance: the signed-in client holds the stored token. *)
Lemma token_is_persisted_witness :
  storedToken (feed_open no_string_prices) = Some (authToken (feed_open no_string_prices)).
Proof.
  apply (token_is_persisted no_string_prices (Some "tok") 0 signed_in);
    [by vm_compute | by vm_compute].
Defined.

(** X15, an instance: a quote of 155 followed by a quote of 160. *)
Lemma refreshPositionPrices_absorbs_witness :
  refreshPositionPrices no_string_prices (bare_quote 160)
    (refreshPositionPrices no_string_prices (bare_quote 155) (snapshot [aapl_at_150]))
  = refreshPositionPrices no_string_prices (bare_quote 160) (snapshot [aapl_at_150]).
Proof.
  apply (refreshPositionPrices_absorbs no_string_prices).
  intros sym. unfold cache_get, bare_quote.
  destruct (decide (sym = "AAPL")) as [->|Hne]; [by vm_compute|].
  by rewrite !lookup_singleton_ne.
Defined.

(** X18, an instance: the signed-in client has its one reconciliation
    interval and the page-load handler waits for nothing. *)
Lemma reconciliation_registered_once_witness :
  count is_reconcile (timers (feed_open no_string_prices))
  + count is_boot (inflight (feed_open no_string_prices)) = 1.
Proof.
  apply (reconciliation_registered_once no_string_prices (Some "tok") 0 signed_in).
  by vm_compute.
Defined.

(** X19, an instance: a quote arrives and the user logs out. *)
Lemma priceCache_never_forgets_witness :
  ∃ st', steps no_string_prices (feed_open no_string_prices)
           [SocketMessage 0 (PriceUpdate (Some (bare_quote 160))); LogoutClick] = Some st'
         ∧ dom (priceCache (feed_open no_string_prices)) ⊆ dom (priceCache st').
Proof.
  destruct (steps no_string_prices (feed_open no_string_prices)
              [SocketMessage 0 (PriceUpdate (Some (bare_quote 160))); LogoutClick])
    as [st'|] eqn:Hrun; [|by vm_compute in Hrun].
  exists st'. split; [done|].
  exact (priceCache_never_forgets no_string_prices _ _ _ Hrun).
Defined.
